(** * Variational learner (learners/variational.py): model and properties

    A shallow embedding of Charles Yang's variational learner as implemented
    in [learners/variational.py]: the grammar codec, the hypothesis sampler,
    the convergence test, the four update strategies and the simulation
    harness.

    Modelling conventions.
    - Python integers are [Z]; grammar ids, sentence ids and counters are
      integers.
    - Python floats (weights, learning rate, thresholds, random draws) are
      modelled by exact rationals [Q]: rounding of binary floating point is
      not represented.
    - The learner is a mutable object; its methods are state transformers over
      a [State] holding the learner and the process-wide sources of
      nondeterminism (the random generator and the wall clock), each given by
      an oracle together with a read cursor.
    - Exceptions and unbounded loops are explicit: a computation returns
      [Ok v], [Raise e], or [OutOfFuel] when a [while] loop was cut off. *)

From Stdlib Require Import ZArith QArith Qround Qabs Lqa String Ascii.
From Stdlib Require PrimFloat FloatOps SpecFloat.
From stdpp Require Import gmap strings list fin_maps pretty.

(** ** Numbers *)

Definition Qltb (x y : Q) : bool := negb (Qle_bool y x).

(** Python 3 [round(x)] with one argument: the nearest integer, ties going to
    the even neighbour. *)
Definition py_round (x : Q) : Z :=
  let f := Qfloor x in
  let r := (x - inject_Z f)%Q in
  if Qltb r 0.5 then f
  else if Qltb 0.5 r then (f + 1)%Z
  else if Z.even f then f else (f + 1)%Z.

(** [enumerate(xs)]: the elements paired with their 0-based index. *)
Fixpoint enumerate_from {A} (start : nat) (xs : list A) : list (nat * A) :=
  match xs with
  | [] => []
  | x :: rest => (start, x) :: enumerate_from (S start) rest
  end.

Definition enumerate {A} (xs : list A) : list (nat * A) := enumerate_from 0 xs.

(** ** Helpers imported from [colag.colag] *)

(** Modelled from the spec: [get_param_value] is imported from the [colag]
    package, whose source is not part of [learners/]. The spec describes it as
    reading a single parameter's value out of a grammar id, by extracting the
    bit at the given position. *)
Definition get_param_value (position : Z) (grammar : Z) : Z :=
  Z.land (Z.shiftr grammar position) 1.

(** Modelled from the spec: [toggled] is imported from the [colag] package,
    whose source is not part of [learners/]. The sampler starts from grammar 0
    and calls it once per successful coin flip to set that parameter's bit to
    1; the call site describes it as toggling the bit in the grammar
    integer. *)
Definition toggled (position : Z) (grammar : Z) : Z :=
  Z.lxor grammar (Z.shiftl 1 position).

(** ** Grammar codec *)

(** [param_list_to_grammar(params)]:
    [grammar += value * 2 ** (total_bits - bit - 1)] for every
    [(bit, value)] of [enumerate(params)]. *)
Fixpoint param_list_loop (total_bits : Z) (items : list (nat * Z)) (grammar : Z) : Z :=
  match items with
  | [] => grammar
  | (bit, value) :: rest =>
      param_list_loop total_bits rest
        (grammar + value * 2 ^ (total_bits - Z.of_nat bit - 1))%Z
  end.

Definition param_list_to_grammar (params : list Z) : Z :=
  let grammar := 0%Z in
  let total_bits := Z.of_nat (length params) in
  param_list_loop total_bits (enumerate params) grammar.

(** ** The domain, the learner and the global state *)

(** The Colag domain object. [language] and [sentence_irr] are dictionaries;
    a language is a set of sentence ids; the annotation of a sentence is a
    string with one character per parameter. *)
Record Domain := {
  num_params : nat;
  legal_grammar : Z → bool;
  language : gmap Z (gset Z);
  sentence_irr : gmap Z string
}.

(** The classes of the module. [PunishOnlyLearner] derives from
    [RewardOnlyLearner], the others from [VariationalLearner]. *)
Inductive LearnerClass :=
  | VariationalLearner
  | RewardOnlyLearner
  | RewardOnlyRelevantLearner
  | SkepticalRewardOnlyLearner
  | PunishOnlyLearner.

Record Learner := {
  cls : LearnerClass;
  domain : Domain;
  learning_rate : Q;
  weights : list Q
}.

Definition set_weights (l : Learner) (ws : list Q) : Learner :=
  {| cls := cls l; domain := domain l; learning_rate := learning_rate l;
     weights := ws |}.

(** [VariationalLearner.__init__(domain, learning_rate=.0005)]. *)
Definition init (c : LearnerClass) (d : Domain) (rate : Q) : Learner :=
  {| cls := c; domain := d; learning_rate := rate;
     weights := replicate (num_params d) 0.5%Q |}.

(** [Learner(domain)], as called by the harness. *)
Definition new_learner (c : LearnerClass) (d : Domain) : Learner :=
  init c d 0.0005%Q.

(** The sources of nondeterminism: [floats k] is the value of the [k]-th call
    to [random.random()], [picks k] the raw draw behind the [k]-th call to
    [random.choice], [clock k] the [k]-th reading of [datetime.now()]. *)
Record World := {
  floats : nat → Q;
  picks : nat → nat;
  clock : nat → Z;
  n_random : nat;
  n_choice : nat;
  n_now : nat
}.

(** The state of the program: the learner at hand (the harness creates one
    per trial) and the world. *)
Record State := {
  learner : Learner;
  world : World
}.

Inductive exn := IndexError | KeyError | NotImplementedError.

Inductive res (A : Type) :=
  | Ok (a : A)
  | Raise (e : exn)
  | OutOfFuel.
Arguments Ok {A} a.
Arguments Raise {A} e.
Arguments OutOfFuel {A}.

(** A computation reads and updates the state and ends in a result. The state
    survives an exception, as the objects of a Python program do. *)
Definition M (A : Type) : Type := State → res A * State.

Definition ret {A} (a : A) : M A := fun s => (Ok a, s).

Definition bind {A B} (m : M A) (k : A → M B) : M B :=
  fun s =>
    match m s with
    | (Ok a, s') => k a s'
    | (Raise e, s') => (Raise e, s')
    | (OutOfFuel, s') => (OutOfFuel, s')
    end.

Definition raise {A} (e : exn) : M A := fun s => (Raise e, s).
Definition out_of_fuel {A} : M A := fun s => (OutOfFuel, s).

#[global] Instance M_ret : MRet M := @ret.
#[global] Instance M_bind : MBind M := fun A B k m => bind m k.

Definition get_self : M Learner := fun s => (Ok (learner s), s).

Definition put_self (l : Learner) : M unit :=
  fun s => (Ok tt, {| learner := l; world := world s |}).

(** [random.random()]. *)
Definition random : M Q :=
  fun s =>
    let w := world s in
    (Ok (floats w (n_random w)),
     {| learner := learner s;
        world := {| floats := floats w; picks := picks w; clock := clock w;
                    n_random := S (n_random w); n_choice := n_choice w;
                    n_now := n_now w |} |}).

(** [random.choice(seq)]: [IndexError] on an empty sequence. *)
Definition choice (seq : list Z) : M Z :=
  fun s =>
    let w := world s in
    match seq !! (picks w (n_choice w) mod length seq) with
    | None => (Raise IndexError, s)
    | Some x =>
        (Ok x,
         {| learner := learner s;
            world := {| floats := floats w; picks := picks w; clock := clock w;
                        n_random := n_random w; n_choice := S (n_choice w);
                        n_now := n_now w |} |})
    end.

(** [datetime.now()]. *)
Definition now : M Z :=
  fun s =>
    let w := world s in
    (Ok (clock w (n_now w)),
     {| learner := learner s;
        world := {| floats := floats w; picks := picks w; clock := clock w;
                    n_random := n_random w; n_choice := n_choice w;
                    n_now := S (n_now w) |} |}).

(** ** Learner core *)

(** [parses(grammar, sentence)]: [sentence in self.domain.language[grammar]];
    the dictionary lookup raises [KeyError] on an unknown grammar. *)
Definition parses (grammar sentence : Z) : M bool :=
  self ← get_self;
  match language (domain self) !! grammar with
  | None => raise KeyError
  | Some sentences => mret (bool_decide (sentence ∈ sentences))
  end.

(** The [for index, w in enumerate(self.weights)] loop of [choose_grammar]. *)
Fixpoint flip_params (items : list (nat * Q)) (grammar : Z) : M Z :=
  match items with
  | [] => mret grammar
  | (index, w) :: rest =>
      r ← random;
      flip_params rest
        (if Qltb r w then toggled (12 - Z.of_nat index) grammar else grammar)
  end.

(** [choose_grammar()]. The loop starts with [grammar = None], which the
    domain does not accept as a legal grammar, so its body runs at least once;
    [fuel] bounds the number of candidates drawn. *)
Fixpoint choose_grammar (fuel : nat) : M Z :=
  match fuel with
  | O => out_of_fuel
  | S fuel' =>
      self ← get_self;
      grammar ← flip_params (enumerate (weights self)) 0%Z;
      if legal_grammar (domain self) grammar then mret grammar
      else choose_grammar fuel'
  end.

(** [converged(threshold)]: the test of the loop is
    [not (1 - w < threshold) or (w < threshold)]. *)
Fixpoint converged_loop (ws : list Q) (threshold : Q) : bool :=
  match ws with
  | [] => true
  | w :: rest =>
      if negb (Qltb (1 - w) threshold) || Qltb w threshold then false
      else converged_loop rest threshold
  end.

Definition converged (self : Learner) (threshold : Q) : bool :=
  converged_loop (weights self) threshold.

(** [best_guess()]. *)
Definition best_guess (self : Learner) : Z :=
  param_list_to_grammar (py_round <$> weights self).

(** ** Update strategies *)

(** The bounded proportional update of one weight:
    [weights[index] -= rate * weight] if [val == 0],
    [weights[index] += rate * (1 - weight)] if [val == 1]. *)
Definition nudge (rate : Q) (val : Z) (weight : Q) : Q :=
  if (val =? 0)%Z then (weight - rate * weight)%Q
  else if (val =? 1)%Z then (weight + rate * (1 - weight))%Q
  else weight.

(** A [for index in ...] loop over the weight list; an exception raised by the
    body leaves the loop with the weights as they are at that point. *)
Fixpoint for_index (indices : list nat)
    (body : nat → list Q → list Q * option exn) (ws : list Q)
    : list Q * option exn :=
  match indices with
  | [] => (ws, None)
  | index :: rest =>
      match body index ws with
      | (ws', None) => for_index rest body ws'
      | (ws', Some e) => (ws', Some e)
      end
  end.

(** The body shared by the three [reward] loops, from
    [val = get_param_value(12-index, hypothesis_grammar)] on;
    [self.weights[index]] raises [IndexError] past the end of the list. *)
Definition update_weight (rate : Q) (hypothesis_grammar : Z) (index : nat)
    (ws : list Q) : list Q * option exn :=
  let val := get_param_value (12 - Z.of_nat index) hypothesis_grammar in
  match ws !! index with
  | None => (ws, Some IndexError)
  | Some weight => (<[index := nudge rate val weight]> ws, None)
  end.

(** [RewardOnlyLearner.reward]. *)
Definition RewardOnlyLearner_reward (self : Learner)
    (hypothesis_grammar sentence : Z) : list Q * option exn :=
  for_index (seq 0 13)
    (fun index ws => update_weight (learning_rate self) hypothesis_grammar index ws)
    (weights self).

(** [RewardOnlyRelevantLearner.reward]. *)
Definition RewardOnlyRelevantLearner_reward (self : Learner)
    (hypothesis_grammar sentence : Z) : list Q * option exn :=
  match sentence_irr (domain self) !! sentence with
  | None => (weights self, Some KeyError)
  | Some trigger_str =>
      for_index (seq 0 13)
        (fun index ws =>
           match String.get index trigger_str with
           | None => (ws, Some IndexError)
           | Some c =>
               if Ascii.eqb c "~" then (ws, None)
               else update_weight (learning_rate self) hypothesis_grammar index ws
           end)
        (weights self)
  end.

(** [SkepticalRewardOnlyLearner.reward]. *)
Definition SkepticalRewardOnlyLearner_reward (self : Learner)
    (hypothesis_grammar sentence : Z) : list Q * option exn :=
  match sentence_irr (domain self) !! sentence with
  | None => (weights self, Some KeyError)
  | Some trigger_str =>
      for_index (seq 0 13)
        (fun index ws =>
           match String.get index trigger_str with
           | None => (ws, Some IndexError)
           | Some c =>
               if Ascii.eqb c "~" then (ws, None)
               else
                 let learning_rate := learning_rate self in
                 let learning_rate :=
                   if Ascii.eqb c "*" then (learning_rate / 2)%Q
                   else learning_rate in
                 update_weight learning_rate hypothesis_grammar index ws
           end)
        (weights self)
  end.

(** [PunishOnlyLearner.punish]: [super().reward(hypothesis_grammar ^ ones,
    sentence)] with [ones = 2 ** num_params - 1]. *)
Definition PunishOnlyLearner_punish (self : Learner)
    (hypothesis_grammar sentence : Z) : list Q * option exn :=
  let ones := (2 ^ Z.of_nat (num_params (domain self)) - 1)%Z in
  RewardOnlyLearner_reward self (Z.lxor hypothesis_grammar ones) sentence.

(** [self.reward(...)] and [self.punish(...)] resolved on the class of [self]:
    the final weights and the exception raised, if any. *)
Definition reward_weights (self : Learner) (hypothesis_grammar sentence : Z)
    : list Q * option exn :=
  match cls self with
  | VariationalLearner => (weights self, Some NotImplementedError)
  | RewardOnlyLearner =>
      RewardOnlyLearner_reward self hypothesis_grammar sentence
  | RewardOnlyRelevantLearner =>
      RewardOnlyRelevantLearner_reward self hypothesis_grammar sentence
  | SkepticalRewardOnlyLearner =>
      SkepticalRewardOnlyLearner_reward self hypothesis_grammar sentence
  | PunishOnlyLearner => (weights self, None)
  end.

Definition punish_weights (self : Learner) (hypothesis_grammar sentence : Z)
    : list Q * option exn :=
  match cls self with
  | VariationalLearner => (weights self, Some NotImplementedError)
  | RewardOnlyLearner => (weights self, None)
  | RewardOnlyRelevantLearner => (weights self, None)
  | SkepticalRewardOnlyLearner => (weights self, None)
  | PunishOnlyLearner =>
      PunishOnlyLearner_punish self hypothesis_grammar sentence
  end.

(** A method that mutates [self.weights] in place. *)
Definition mutate (method : Learner → list Q * option exn) : M unit :=
  self ← get_self;
  let '(ws, e) := method self in
  put_self (set_weights self ws);;
  match e with
  | None => mret tt
  | Some e => raise e
  end.

Definition reward (hypothesis_grammar sentence : Z) : M unit :=
  mutate (fun self => reward_weights self hypothesis_grammar sentence).

Definition punish (hypothesis_grammar sentence : Z) : M unit :=
  mutate (fun self => punish_weights self hypothesis_grammar sentence).

(** [consume(sentence)]. *)
Definition consume (fuel : nat) (sentence : Z) : M unit :=
  hypothesis_grammar ← choose_grammar fuel;
  parsed ← parses hypothesis_grammar sentence;
  if parsed : bool then reward hypothesis_grammar sentence
  else punish hypothesis_grammar sentence.

(** ** Simulation harness *)

(** [choose_sentence(language)]. *)
Definition choose_sentence (language : list Z) : M Z := choice language.

(** The [while not learner.converged(threshold)] loop of [learn_language];
    [n] bounds the number of iterations, [fuel] the retries of each call to
    the sampler. *)
Fixpoint learn_loop (fuel n : nat) (threshold : Q) (target_language : list Z)
    (iterations counter : Z) : M Z :=
  match n with
  | O => out_of_fuel
  | S n' =>
      self ← get_self;
      if converged self threshold then mret counter
      else
        sentence ← choose_sentence target_language;
        consume fuel sentence;;
        if (counter >=? iterations)%Z then mret counter
        else
          learn_loop fuel n' threshold target_language iterations
            (counter + 1)%Z
  end.

(** [learn_language(learner, target_language, iterations)]; the learner is the
    one held by the state. *)
Definition learn_language (fuel : nat) (target_language : list Z)
    (iterations : Z) : M Z :=
  let weights := replicate 13 0.5%Q in
  let threshold := 0.02%Q in
  let counter := 0%Z in
  learn_loop fuel fuel threshold target_language iterations counter.

(** One row yielded by [run_vl_on_languages]:
    [[grammar, trial_num, sentences_consumed, learner.choose_grammar()]]
    followed by the weights, an empty string and the run time. *)
Record Result := {
  r_grammar : Z;
  r_trial_num : nat;
  r_sentences_consumed : Z;
  r_hypothesis : Z;
  r_weights : list Q;
  r_runtime : Z
}.

(** The body of [for trial_num in range(num_learners)]. *)
Definition run_trial (fuel : nat) (Learner_cls : LearnerClass) (d : Domain)
    (grammar : Z) (language : list Z) (num_sentences : Z) (trial_num : nat)
    : M Result :=
  put_self (new_learner Learner_cls d);;
  start ← now;
  sentences_consumed ← learn_language fuel language num_sentences;
  end_ ← now;
  let runtime := (end_ - start)%Z in
  hypothesis ← choose_grammar fuel;
  self ← get_self;
  mret {| r_grammar := grammar; r_trial_num := trial_num;
          r_sentences_consumed := sentences_consumed;
          r_hypothesis := hypothesis; r_weights := weights self;
          r_runtime := runtime |}.

(** A generator: the rows yielded so far, and how the generator ended. *)
Definition Gen : Type := State → (list Result * res unit) * State.

Definition stop (r : res unit) : Gen := fun s => (([], r), s).

Fixpoint run_trials (fuel : nat) (Learner_cls : LearnerClass) (d : Domain)
    (grammar : Z) (language : list Z) (num_sentences : Z)
    (trial_nums : list nat) : Gen :=
  fun s =>
    match trial_nums with
    | [] => stop (Ok tt) s
    | trial_num :: rest =>
        match run_trial fuel Learner_cls d grammar language num_sentences
                trial_num s with
        | (Ok result, s') =>
            let '((results, r), s'') :=
              run_trials fuel Learner_cls d grammar language num_sentences
                rest s' in
            ((result :: results, r), s'')
        | (Raise e, s') => stop (Raise e) s'
        | (OutOfFuel, s') => stop OutOfFuel s'
        end
    end.

(** [run_vl_on_languages(Learner, grammar_ids, num_learners, num_sentences,
    domain)] with a domain given by the caller. *)
Fixpoint run_vl_on_languages (fuel : nat) (Learner_cls : LearnerClass)
    (grammar_ids : list Z) (num_learners : nat) (num_sentences : Z)
    (d : Domain) : Gen :=
  fun s =>
    match grammar_ids with
    | [] => stop (Ok tt) s
    | grammar :: rest =>
        match language d !! grammar with
        | None => stop (Raise KeyError) s
        | Some sentences =>
            let language := elements sentences in
            match run_trials fuel Learner_cls d grammar language num_sentences
                    (seq 0 num_learners) s with
            | ((results, Ok _), s') =>
                let '((results', r), s'') :=
                  run_vl_on_languages fuel Learner_cls rest num_learners
                    num_sentences d s' in
                ((results ++ results', r), s'')
            | other => other
            end
        end
    end.

(** ** Specification vocabulary *)

(** The value of a sequence of bits read as a big-endian bitstring, the first
    element being the most significant bit. *)
Fixpoint big_endian (values : list Z) : Z :=
  match values with
  | [] => 0
  | v :: rest => (v * 2 ^ Z.of_nat (length rest) + big_endian rest)%Z
  end.

Definition is_bit (v : Z) : Prop := v = 0%Z ∨ v = 1%Z.

(** A weight of the closed interval [0,1]. *)
Definition in_unit (w : Q) : Prop := (0 <= w <= 1)%Q.

(** The convergence criterion of the docstring of [converged]: every weight is
    less than [threshold] away from 0 or from 1. *)
Definition near_boundary (threshold w : Q) : Prop :=
  (w < threshold)%Q ∨ (1 - w < threshold)%Q.

(** The outcomes of the coin flips of one pass of the sampler over the
    weights, the first draw being number [k] of the oracle. *)
Fixpoint coin_flips (draws : nat → Q) (k : nat) (ws : list Q) : list Z :=
  match ws with
  | [] => []
  | w :: rest =>
      (if Qltb (draws k) w then 1%Z else 0%Z) :: coin_flips draws (S k) rest
  end.

(** The character annotating parameter [i] in sentence [s], if any. *)
Definition annotation (d : Domain) (s : Z) (i : nat) : option ascii :=
  sentence_irr d !! s ≫= String.get i.

(** What one iteration of a [reward] loop does at its index: the lookup of the
    annotation raises, the iteration is skipped, or the weight is updated with
    some rate. *)
Inductive action := Fail | Skip | Update (rate : Q).

Definition perform (act : nat → action) (h : Z) (index : nat) (ws : list Q)
    : list Q * option exn :=
  match act index with
  | Fail => (ws, Some IndexError)
  | Skip => (ws, None)
  | Update rate => update_weight rate h index ws
  end.

Definition reward_only_action (rate : Q) : nat → action :=
  fun _ => Update rate.

Definition relevant_action (rate : Q) (trigger_str : string) : nat → action :=
  fun index =>
    match String.get index trigger_str with
    | None => Fail
    | Some c => if Ascii.eqb c "~" then Skip else Update rate
    end.

Definition skeptical_action (rate : Q) (trigger_str : string) : nat → action :=
  fun index =>
    match String.get index trigger_str with
    | None => Fail
    | Some c =>
        if Ascii.eqb c "~" then Skip
        else Update (if Ascii.eqb c "*" then (rate / 2)%Q else rate)
    end.

(** Iteration [j] raises on a weight list of length [len]. *)
Definition fails (act : nat → action) (len j : nat) : bool :=
  match act j with
  | Fail => true
  | Skip => false
  | Update _ => bool_decide (len ≤ j)
  end.

Fixpoint first_failure (act : nat → action) (len : nat) (indices : list nat)
    : option nat :=
  match indices with
  | [] => None
  | j :: rest => if fails act len j then Some j else first_failure act len rest
  end.

(** Index [i] is handled before the loop stops. *)
Definition reached (stop : option nat) (i : nat) : bool :=
  match stop with
  | None => true
  | Some j => bool_decide (i < j)
  end.

(** The weight of parameter [i] after its iteration. *)
Definition outcome (act : nat → action) (h : Z) (i : nat) (w : Q) : Q :=
  match act i with
  | Update rate => nudge rate (get_param_value (12 - Z.of_nat i) h) w
  | _ => w
  end.

(** The configuration of a learner: everything but its weights. *)
Definition same_config (l l' : Learner) : Prop :=
  cls l = cls l' ∧ domain l = domain l' ∧ learning_rate l = learning_rate l'.

(** The number of calls to [choose_sentence] between two states; every
    sentence drawn by the harness is passed to [consume]. *)
Definition sentences_drawn (st st' : State) : Z :=
  (Z.of_nat (n_choice (world st')) - Z.of_nat (n_choice (world st)))%Z.

(** ** Sample domains and states *)

(** A domain with [p] parameters in which every [p]-bit grammar is legal,
    grammar 0 generates sentence 1 and the all-ones grammar generates
    sentences 1 and 2; sentence 1 is annotated with [note]. *)
Definition sample_domain (p : nat) (note : string) : Domain :=
  {| num_params := p;
     legal_grammar := fun g => (0 <=? g)%Z && (g <? 2 ^ Z.of_nat p)%Z;
     language := {[ 0%Z := {[ 1%Z ]}; (2 ^ Z.of_nat p - 1)%Z := {[ 1%Z; 2%Z ]} ]};
     sentence_irr := {[ 1%Z := note ]} |}.

Definition domain13 : Domain := sample_domain 13 "0~*0000000000".
Definition domain14 : Domain := sample_domain 14 "00000000000000".
Definition domain3 : Domain := sample_domain 3 "000".

(** A world whose [k]-th random float is [draws k], after [used] calls to
    [random.random()]. *)
Definition sample_world_at (draws : nat → Q) (used : nat) : World :=
  {| floats := draws; picks := fun _ => 0; clock := fun k => Z.of_nat k;
     n_random := used; n_choice := 0; n_now := 0 |}.

Definition sample_world (draws : nat → Q) : World := sample_world_at draws 0.

Definition sample_state (c : LearnerClass) (d : Domain) (draws : nat → Q)
    : State :=
  {| learner := new_learner c d; world := sample_world draws |}.

(** Every coin flip fails (grammar 0 is sampled). *)
Definition high_draws : nat → Q := fun _ => 0.9%Q.

(** Every coin flip on a weight of 0.5 succeeds. *)
Definition low_draws : nat → Q := fun _ => 0.25%Q.

(** The first thirteen coin flips succeed, the later ones fail. *)
Definition mixed_draws : nat → Q :=
  fun k => if (k <? 13)%nat then 0%Q else 0.9%Q.

(** ** Further functions of the module *)

(** [weighted_coin_flip(weight)]: [int(random.random() < weight)]. *)
Definition weighted_coin_flip (weight : Q) : M Z :=
  r ← random;
  mret (if Qltb r weight then 1%Z else 0%Z).

(** [weights_to_params(weights)]:
    [''.join(str(round(x)) for x in weights)]; [str] of an integer is its
    decimal notation, with a leading minus sign when negative. *)
Definition weights_to_params (weights : list Q) : string :=
  foldr (fun x joined => pretty (py_round x) +:+ joined) "" weights.

(** ** Further vocabulary *)

(** [random.random()] returns values of the interval [0,1). *)
Definition unit_draws (w : World) : Prop :=
  ∀ k, (0 <= floats w k)%Q ∧ (floats w k < 1)%Q.

(** The classes whose [punish] does nothing. *)
Definition reward_only (c : LearnerClass) : Prop :=
  c = RewardOnlyLearner ∨ c = RewardOnlyRelevantLearner ∨
  c = SkepticalRewardOnlyLearner.

(** The bit that corresponds to a weight once it is decided: 1 above one
    half, 0 otherwise. *)
Definition decided_bit (w : Q) : Z := if Qltb 0.5 w then 1%Z else 0%Z.

(** The pairs (grammar, trial number) in the order of the two nested loops of
    [run_vl_on_languages]. *)
Definition trial_plan (grammar_ids : list Z) (num_learners : nat)
    : list (Z * nat) :=
  g ← grammar_ids; (fun t => (g, t)) <$> seq 0 num_learners.

(** The state after [n] more calls to [random.random()]. *)
Definition advance (st : State) (n : nat) : State :=
  {| learner := learner st;
     world := {| floats := floats (world st); picks := picks (world st);
                 clock := clock (world st);
                 n_random := n + n_random (world st);
                 n_choice := n_choice (world st);
                 n_now := n_now (world st) |} |}.

(** The character printed for a weight of [0,1]. *)
Definition digit (w : Q) : ascii := if Qltb 0.5 w then "1"%char else "0"%char.

(** A weight that has reached one of its two boundary values. *)
Definition decided (w : Q) : Prop := (w == 0)%Q ∨ (w == 1)%Q.

(** A property of weight lists kept by every update of a learner whose
    configuration is that of [l]. *)
Definition kept_by_updates (l : Learner) (P : list Q → Prop) : Prop :=
  ∀ ws h s,
    P ws →
    P (reward_weights (set_weights l ws) h s).1 ∧
    P (punish_weights (set_weights l ws) h s).1.

(** The grammar and the trial number of a row. *)
Definition row_key (row : Result) : Z * nat := (r_grammar row, r_trial_num row).

(** The first coin flip succeeds, the later ones fail. *)
Definition first_low_draws : nat → Q :=
  fun k => if (k =? 0)%nat then 0%Q else 0.9%Q.

(** The thirteen-parameter sample domain, sentence 1 being irrelevant to
    every parameter. *)
Definition domain13_irrelevant : Domain := sample_domain 13 "~~~~~~~~~~~~~".

(** ** The trials of a run and the loop as the spec words it *)

(** The first two statements of a trial: [learner = Learner(domain)] and
    [start = datetime.now()]. *)
Definition trial_start (c : LearnerClass) (d : Domain) : M Z :=
  put_self (new_learner c d);; now.

(** The trials of a run, each with the state it starts from and the state it
    ends in. *)
Definition chain : Type := list (State * Result * State).

Definition rows_of (trials : chain) : list Result := (fun x => x.1.2) <$> trials.

(** Each trial starts in the state the one before it ended in. *)
Fixpoint linked (st : State) (trials : chain) : Prop :=
  match trials with
  | [] => True
  | (st0, _, st') :: rest => st0 = st ∧ linked st' rest
  end.

(** The state in which a run of trials started in [st] ends. *)
Fixpoint chain_end (st : State) (trials : chain) : State :=
  match trials with
  | [] => st
  | (_, _, st') :: rest => chain_end st' rest
  end.

(** The loop of [learn_language] as the spec words it: before every sentence
    the learner is tested with [threshold]; the loop stops on a converged
    learner, or after the sentence consumed with the counter at the cap. *)
Inductive loop_run (fuel : nat) (threshold : Q) (lang : list Z) (cap : Z)
    : Z → State → Z → State → Prop :=
  | loop_converged counter st :
      converged (learner st) threshold = true →
      loop_run fuel threshold lang cap counter st counter st
  | loop_capped counter st sentence st1 st2 :
      converged (learner st) threshold = false →
      choose_sentence lang st = (Ok sentence, st1) →
      consume fuel sentence st1 = (Ok tt, st2) →
      (cap <= counter)%Z →
      loop_run fuel threshold lang cap counter st counter st2
  | loop_continue counter st sentence st1 st2 k st' :
      converged (learner st) threshold = false →
      choose_sentence lang st = (Ok sentence, st1) →
      consume fuel sentence st1 = (Ok tt, st2) →
      (counter < cap)%Z →
      loop_run fuel threshold lang cap (counter + 1) st2 k st' →
      loop_run fuel threshold lang cap counter st k st'.

(** A trial of the run: [run_trial] on the language of the row's grammar,
    from the first state to the second. *)
Definition trial_of (fuel : nat) (c : LearnerClass) (d : Domain) (cap : Z)
    (x : State * Result * State) : Prop :=
  ∃ sentences,
    language d !! r_grammar x.1.2 = Some sentences ∧
    run_trial fuel c d (r_grammar x.1.2) (elements sentences) cap
      (r_trial_num x.1.2) x.1.1 = (Ok x.1.2, x.2).


(** ** The update loops in binary64

    Python floats are binary64 numbers. The two relevance-aware [reward]
    methods are given here a second time, over Rocq's primitive floats, for
    the statements that depend on rounding. *)

Module Binary64.
Import PrimFloat.

(** [.0005], the default [learning_rate]: the binary64 number nearest to
    it. *)
Definition default_learning_rate : float := 0x1.0624dd2f1a9fcp-11%float.

(** The bounded proportional update of one weight, in binary64. *)
Definition nudge (rate : float) (val : Z) (weight : float) : float :=
  if (val =? 0)%Z then (weight - rate * weight)%float
  else if (val =? 1)%Z then (weight + rate * (1 - weight))%float
  else weight.

(** A [for index in ...] loop over a list of binary64 weights. *)
Fixpoint for_index (indices : list nat)
    (body : nat → list float → list float * option exn) (ws : list float)
    : list float * option exn :=
  match indices with
  | [] => (ws, None)
  | index :: rest =>
      match body index ws with
      | (ws', None) => for_index rest body ws'
      | (ws', Some e) => (ws', Some e)
      end
  end.

(** The loop body from [val = get_param_value(12-index, hypothesis_grammar)]
    on. *)
Definition update_weight (rate : float) (hypothesis_grammar : Z) (index : nat)
    (ws : list float) : list float * option exn :=
  let val := get_param_value (12 - Z.of_nat index) hypothesis_grammar in
  match ws !! index with
  | None => (ws, Some IndexError)
  | Some weight => (<[index := nudge rate val weight]> ws, None)
  end.

(** [RewardOnlyRelevantLearner.reward] on a learner with the given domain,
    learning rate and weights. *)
Definition RewardOnlyRelevantLearner_reward (d : Domain)
    (learning_rate : float) (weights : list float)
    (hypothesis_grammar sentence : Z) : list float * option exn :=
  match sentence_irr d !! sentence with
  | None => (weights, Some KeyError)
  | Some trigger_str =>
      for_index (seq 0 13)
        (fun index ws =>
           match String.get index trigger_str with
           | None => (ws, Some IndexError)
           | Some c =>
               if Ascii.eqb c "~" then (ws, None)
               else update_weight learning_rate hypothesis_grammar index ws
           end)
        weights
  end.

(** [SkepticalRewardOnlyLearner.reward], likewise. *)
Definition SkepticalRewardOnlyLearner_reward (d : Domain)
    (learning_rate : float) (weights : list float)
    (hypothesis_grammar sentence : Z) : list float * option exn :=
  match sentence_irr d !! sentence with
  | None => (weights, Some KeyError)
  | Some trigger_str =>
      for_index (seq 0 13)
        (fun index ws =>
           match String.get index trigger_str with
           | None => (ws, Some IndexError)
           | Some c =>
               if Ascii.eqb c "~" then (ws, None)
               else
                 let rate := learning_rate in
                 let rate :=
                   if Ascii.eqb c "*" then (rate / 2)%float else rate in
                 update_weight rate hypothesis_grammar index ws
           end)
        weights
  end.

(** The exact value of a finite binary64 number. *)
Definition exact (x : float) : option Q :=
  match FloatOps.Prim2SF x with
  | SpecFloat.S754_zero _ => Some 0%Q
  | SpecFloat.S754_finite s m e =>
      let v :=
        if (0 <=? e)%Z then inject_Z (Z.pos m * 2 ^ e)
        else (inject_Z (Z.pos m) / inject_Z (2 ^ (- e)))%Q in
      Some (Qred (if s then (- v)%Q else v))
  | _ => None
  end.

(** What one iteration does at its index, as for the rational model. *)
Inductive action := Fail | Skip | Update (rate : float).

Definition perform (act : nat → action) (h : Z) (index : nat)
    (ws : list float) : list float * option exn :=
  match act index with
  | Fail => (ws, Some IndexError)
  | Skip => (ws, None)
  | Update rate => update_weight rate h index ws
  end.

Definition relevant_action (rate : float) (trigger_str : string)
    : nat → action :=
  fun index =>
    match String.get index trigger_str with
    | None => Fail
    | Some c => if Ascii.eqb c "~" then Skip else Update rate
    end.

Definition skeptical_action (rate : float) (trigger_str : string)
    : nat → action :=
  fun index =>
    match String.get index trigger_str with
    | None => Fail
    | Some c =>
        if Ascii.eqb c "~" then Skip
        else Update (if Ascii.eqb c "*" then (rate / 2)%float else rate)
    end.

Definition fails (act : nat → action) (len j : nat) : bool :=
  match act j with
  | Fail => true
  | Skip => false
  | Update _ => bool_decide (len ≤ j)
  end.

Fixpoint first_failure (act : nat → action) (len : nat) (indices : list nat)
    : option nat :=
  match indices with
  | [] => None
  | j :: rest => if fails act len j then Some j else first_failure act len rest
  end.

Definition outcome (act : nat → action) (h : Z) (i : nat) (w : float)
    : float :=
  match act i with
  | Update rate => nudge rate (get_param_value (12 - Z.of_nat i) h) w
  | _ => w
  end.

End Binary64.


(** * Properties *)

(** ** Numbers *)

Lemma Qltb_lt (x y : Q) : Qltb x y = true ↔ (x < y)%Q.
Proof.
  unfold Qltb. rewrite negb_true_iff, <- not_true_iff_false, Qle_bool_iff.
  split; intros H; lra.
Qed.

Lemma Qltb_ge (x y : Q) : Qltb x y = false ↔ (y <= x)%Q.
Proof.
  unfold Qltb. rewrite negb_false_iff, Qle_bool_iff. reflexivity.
Qed.

Lemma half_rate (rate : Q) : (rate / 2 == rate * 0.5)%Q.
Proof. field. Qed.

(** ** Grammar codec *)

Lemma param_list_loop_spec (total_bits : Z) (values : list Z) :
  ∀ (start : nat) (grammar : Z),
    (Z.of_nat start + Z.of_nat (length values) <= total_bits)%Z →
    param_list_loop total_bits (enumerate_from start values) grammar =
    (grammar + big_endian values *
       2 ^ (total_bits - Z.of_nat start - Z.of_nat (length values)))%Z.
Proof.
  induction values as [|v rest IH]; intros start grammar Hlen; simpl.
  - lia.
  - rewrite IH by (simpl in Hlen; lia).
    simpl length in *.
    replace (total_bits - Z.of_nat start - 1)%Z
      with (Z.of_nat (length rest) +
            (total_bits - Z.of_nat (S start) - Z.of_nat (length rest)))%Z by lia.
    rewrite Z.pow_add_r by lia.
    replace (total_bits - Z.of_nat start - Z.of_nat (S (length rest)))%Z
      with (total_bits - Z.of_nat (S start) - Z.of_nat (length rest))%Z by lia.
    ring.
Qed.

Lemma param_list_to_grammar_big_endian (params : list Z) :
  param_list_to_grammar params = big_endian params.
Proof.
  unfold param_list_to_grammar, enumerate.
  rewrite param_list_loop_spec by (simpl; lia).
  replace (Z.of_nat (length params) - Z.of_nat 0 - Z.of_nat (length params))%Z
    with 0%Z by lia.
  simpl. lia.
Qed.

Lemma big_endian_range (values : list Z) :
  Forall is_bit values →
  (0 <= big_endian values < 2 ^ Z.of_nat (length values))%Z.
Proof.
  induction 1 as [|v rest Hv _ IH]; simpl big_endian; simpl length.
  - simpl. lia.
  - rewrite Nat2Z.inj_succ, Z.pow_succ_r by lia.
    destruct Hv as [-> | ->]; lia.
Qed.

Lemma get_param_value_div (position grammar : Z) :
  (0 <= position)%Z →
  get_param_value position grammar = ((grammar / 2 ^ position) mod 2)%Z.
Proof.
  intros Hpos. unfold get_param_value.
  rewrite Z.shiftr_div_pow2 by assumption.
  change 1%Z with (Z.ones 1). rewrite Z.land_ones by lia. reflexivity.
Qed.

Lemma big_endian_bit (values : list Z) :
  Forall is_bit values →
  ∀ (i : nat) (v : Z),
    values !! i = Some v →
    get_param_value (Z.of_nat (length values) - 1 - Z.of_nat i)
      (big_endian values) = v.
Proof.
  induction 1 as [|b rest Hb Hrest IH]; intros i v Hi.
  - discriminate.
  - pose proof (big_endian_range rest Hrest) as Hr.
    pose proof (lookup_lt_Some _ _ _ Hi) as Hlt. simpl length in Hlt.
    simpl big_endian. simpl length. destruct i as [|i]; simpl in Hi.
    + injection Hi as ->.
      replace (Z.of_nat (S (length rest)) - 1 - Z.of_nat 0)%Z
        with (Z.of_nat (length rest)) by lia.
      rewrite get_param_value_div by lia.
      rewrite Z.div_add_l by lia.
      rewrite Z.div_small by lia.
      destruct Hb as [-> | ->]; reflexivity.
    + specialize (IH i v Hi).
      replace (Z.of_nat (S (length rest)) - 1 - Z.of_nat (S i))%Z
        with (Z.of_nat (length rest) - 1 - Z.of_nat i)%Z by lia.
      rewrite get_param_value_div in * by lia.
      set (p := (Z.of_nat (length rest) - 1 - Z.of_nat i)%Z) in *.
      replace (Z.of_nat (length rest)) with (p + 1 + Z.of_nat i)%Z in * by lia.
      replace (b * 2 ^ (p + 1 + Z.of_nat i))%Z
        with ((b * 2 ^ Z.of_nat i * 2) * 2 ^ p)%Z.
      2:{ rewrite !Z.pow_add_r by lia. ring. }
      rewrite Z.div_add_l by lia.
      rewrite <- IH.
      rewrite Z.add_comm, Z.mul_comm.
      rewrite Z.mul_comm. rewrite Z_mod_plus_full. reflexivity.
Qed.

(** C9. For every sequence [values] of bits, of length P,
    [param_list_to_grammar values] is the value of [values] read as a
    big-endian bitstring (parameter 0 most significant), and extracting the
    bit at position P-1-i returns [values[i]], for every index i < P. *)
Theorem encode_bit_roundtrip (values : list Z) (i : nat) (v : Z) :
  Forall is_bit values →
  values !! i = Some v →
  param_list_to_grammar values = big_endian values ∧
  get_param_value (Z.of_nat (length values) - 1 - Z.of_nat i)
    (param_list_to_grammar values) = v.
Proof.
  intros Hbits Hi. split.
  - apply param_list_to_grammar_big_endian.
  - rewrite param_list_to_grammar_big_endian. by apply big_endian_bit.
Qed.

Lemma encode_bit_roundtrip_witness :
  Forall is_bit [1; 0; 1; 1]%Z ∧
  [1; 0; 1; 1]%Z !! 1 = Some 0%Z ∧
  param_list_to_grammar [1; 0; 1; 1]%Z = big_endian [1; 0; 1; 1]%Z ∧
  get_param_value (Z.of_nat (length [1; 0; 1; 1]%Z) - 1 - Z.of_nat 1)
    (param_list_to_grammar [1; 0; 1; 1]%Z) = 0%Z.
Proof.
  assert (Hbits : Forall is_bit [1; 0; 1; 1]%Z).
  { repeat (constructor; [unfold is_bit; lia|]). constructor. }
  split; [exact Hbits|]. split; [reflexivity|].
  apply (encode_bit_roundtrip [1; 0; 1; 1]%Z 1 0%Z); [exact Hbits|reflexivity].
Defined.

(** ** Convergence *)

Lemma converged_loop_true (ws : list Q) (threshold : Q) :
  converged_loop ws threshold = true ↔
  Forall (fun w => (1 - w < threshold)%Q ∧ (threshold <= w)%Q) ws.
Proof.
  induction ws as [|w rest IH]; simpl.
  - split; [constructor|done].
  - destruct (Qltb (1 - w) threshold) eqn:Hhigh; simpl.
    + destruct (Qltb w threshold) eqn:Hlow.
      * apply Qltb_lt in Hlow. split; [done|].
        intros H. inversion H as [|? ? [_ Hw] _]; subst. lra.
      * apply Qltb_lt in Hhigh. apply Qltb_ge in Hlow.
        rewrite IH. split.
        -- intros H. by constructor.
        -- intros H. by inversion H.
    + apply Qltb_ge in Hhigh. split; [done|].
      intros H. inversion H as [|? ? [Hw _] _]; subst. lra.
Qed.

(** What [converged] computes: every weight is within [threshold] of 1 and
    not below [threshold]. *)
Lemma converged_true (self : Learner) (threshold : Q) :
  converged self threshold = true ↔
  Forall (fun w => (1 - w < threshold)%Q ∧ (threshold <= w)%Q) (weights self).
Proof. apply converged_loop_true. Qed.

(** When [converged] answers true, the documented criterion holds. *)
Lemma converged_near_boundary (self : Learner) (threshold : Q) :
  converged self threshold = true →
  Forall (near_boundary threshold) (weights self).
Proof.
  rewrite converged_true. intros H.
  eapply Forall_impl; [exact H|].
  intros w [Hw _]. by right.
Qed.

(** C1 (fails on the code). With threshold 0.02 and thirteen weights equal to
    0.01, every weight is at most 0.02, hence within the threshold of 0, and
    yet [converged] returns false. *)
Theorem converged_rejects_weights_near_zero :
  let self :=
    set_weights (new_learner RewardOnlyLearner domain13)
      (replicate 13 0.01%Q) in
  Forall (fun w => (w <= 0.02)%Q ∨ (0.98 <= w)%Q) (weights self) ∧
  Forall (near_boundary 0.02) (weights self) ∧
  converged self 0.02 = false.
Proof.
  simpl. split; [|split].
  - repeat (constructor; [left; lra|]). constructor.
  - repeat (constructor; [left; lra|]). constructor.
  - reflexivity.
Qed.

(** ** Reasoning about computations *)

Ltac unfold_monad :=
  unfold mbind, M_bind, bind, mret, M_ret, ret, raise, out_of_fuel,
    get_self, put_self in *.

Lemma bind_Ok {A B} (m : M A) (k : A → M B) (st st' : State) (b : B) :
  (m ≫= k) st = (Ok b, st') →
  ∃ a st1, m st = (Ok a, st1) ∧ k a st1 = (Ok b, st').
Proof.
  unfold_monad. destruct (m st) as [[a|e|] st1]; try discriminate. eauto.
Qed.

(** A run that returns [a], with the state it ends in. *)
Lemma run_result {A} (m : M A) (st : State) (a : A) :
  (m st).1 = Ok a → m st = (Ok a, (m st).2).
Proof. destruct (m st) as [r st']. simpl. by intros ->. Qed.

Lemma mutate_frame (method : Learner → list Q * option exn) (st : State) :
  same_config (learner st) (learner (mutate method st).2) ∧
  weights (learner (mutate method st).2) = (method (learner st)).1 ∧
  world (mutate method st).2 = world st.
Proof.
  unfold mutate, same_config. unfold_monad. simpl.
  destruct (method (learner st)) as [ws [e|]]; done.
Qed.

(** ** The weights stay in the unit interval *)

Lemma nudge_in_unit (rate : Q) (val : Z) (weight : Q) :
  in_unit rate → in_unit weight → in_unit (nudge rate val weight).
Proof.
  unfold in_unit, nudge. intros Hr Hw.
  destruct (val =? 0)%Z; [split; nra|].
  destruct (val =? 1)%Z; [split; nra|assumption].
Qed.

Lemma half_rate_in_unit (rate : Q) : in_unit rate → in_unit (rate / 2).
Proof.
  unfold in_unit. intros H. rewrite half_rate. split; lra.
Qed.

Lemma for_index_invariant (P : list Q → Prop)
    (body : nat → list Q → list Q * option exn) :
  (∀ index ws, P ws → P (body index ws).1) →
  ∀ indices ws, P ws → P (for_index indices body ws).1.
Proof.
  intros Hbody indices. induction indices as [|index rest IH]; intros ws Hws.
  - exact Hws.
  - simpl. specialize (Hbody index ws Hws).
    destruct (body index ws) as [ws' [e|]]; simpl in *; auto.
Qed.

Lemma update_weight_in_unit (rate : Q) (h : Z) (index : nat) (ws : list Q) :
  in_unit rate → Forall in_unit ws →
  Forall in_unit (update_weight rate h index ws).1.
Proof.
  intros Hr Hws. unfold update_weight.
  destruct (ws !! index) as [weight|] eqn:Hlook; simpl; [|assumption].
  apply Forall_insert; [assumption|].
  apply nudge_in_unit; [assumption|].
  eapply Forall_lookup_1; eassumption.
Qed.

Lemma reward_weights_in_unit (self : Learner) (h s : Z) :
  in_unit (learning_rate self) → Forall in_unit (weights self) →
  Forall in_unit (reward_weights self h s).1.
Proof.
  intros Hr Hws. unfold reward_weights.
  destruct (cls self); simpl; try assumption.
  - unfold RewardOnlyLearner_reward.
    apply (for_index_invariant (Forall in_unit)); [|assumption].
    intros. by apply update_weight_in_unit.
  - unfold RewardOnlyRelevantLearner_reward.
    destruct (sentence_irr (domain self) !! s) as [trigger_str|]; [|assumption].
    apply (for_index_invariant (Forall in_unit)); [|assumption].
    intros index ws Hin. destruct (get index trigger_str); [|assumption].
    destruct (Ascii.eqb _ _); [assumption|]. by apply update_weight_in_unit.
  - unfold SkepticalRewardOnlyLearner_reward.
    destruct (sentence_irr (domain self) !! s) as [trigger_str|]; [|assumption].
    apply (for_index_invariant (Forall in_unit)); [|assumption].
    intros index ws Hin. destruct (get index trigger_str); [|assumption].
    destruct (Ascii.eqb _ "~"); [assumption|].
    apply update_weight_in_unit; [|assumption].
    destruct (Ascii.eqb _ _); [by apply half_rate_in_unit|assumption].
Qed.

Lemma punish_weights_in_unit (self : Learner) (h s : Z) :
  in_unit (learning_rate self) → Forall in_unit (weights self) →
  Forall in_unit (punish_weights self h s).1.
Proof.
  intros Hr Hws. unfold punish_weights.
  destruct (cls self); simpl; try assumption.
  unfold PunishOnlyLearner_punish, RewardOnlyLearner_reward.
  apply (for_index_invariant (Forall in_unit)); [|assumption].
  intros. by apply update_weight_in_unit.
Qed.

(** C2. For every learner, of any of the classes, whose weights lie in [0,1]
    and whose learning rate lies in [0,1], one call to [reward] or to [punish]
    leaves every weight in [0,1], whatever the hypothesis and the sentence,
    and also when the call ends in an exception. *)
Theorem update_keeps_unit_interval (h s : Z) (st : State) :
  in_unit (learning_rate (learner st)) →
  Forall in_unit (weights (learner st)) →
  Forall in_unit (weights (learner (reward h s st).2)) ∧
  Forall in_unit (weights (learner (punish h s st).2)).
Proof.
  intros Hr Hws. unfold reward, punish. split.
  - destruct (mutate_frame (fun self => reward_weights self h s) st)
      as (_ & -> & _).
    by apply reward_weights_in_unit.
  - destruct (mutate_frame (fun self => punish_weights self h s) st)
      as (_ & -> & _).
    by apply punish_weights_in_unit.
Qed.

Lemma update_keeps_unit_interval_witness :
  let st := sample_state SkepticalRewardOnlyLearner domain13 high_draws in
  Forall in_unit (weights (learner (reward 5 1 st).2)) ∧
  Forall in_unit (weights (learner (punish 5 1 st).2)).
Proof.
  apply (update_keeps_unit_interval 5 1
           (sample_state SkepticalRewardOnlyLearner domain13 high_draws)).
  - unfold in_unit. simpl. split; lra.
  - simpl. repeat (constructor; [unfold in_unit; split; lra|]). constructor.
Defined.

(** ** Punishment as inverted reward *)

Lemma get_param_value_testbit (position grammar : Z) :
  (0 <= position)%Z →
  get_param_value position grammar = Z.b2z (Z.testbit grammar position).
Proof.
  intros Hpos. rewrite get_param_value_div by assumption.
  rewrite <- Z.bit0_mod, <- Z.shiftr_div_pow2 by assumption.
  rewrite Z.shiftr_spec by lia. f_equal.
Qed.

Lemma complement_bit (p : nat) (h : Z) (j : nat) :
  j < p →
  get_param_value (Z.of_nat j) (Z.lxor h (2 ^ Z.of_nat p - 1)) =
  (1 - get_param_value (Z.of_nat j) h)%Z.
Proof.
  intros Hj. rewrite !get_param_value_testbit by lia.
  rewrite Z.lxor_spec. rewrite Z.sub_1_r, <- Z.ones_equiv.
  rewrite Z.ones_spec_low by lia.
  by destruct (Z.testbit h (Z.of_nat j)).
Qed.

(** C4. For every weight vector, learning rate, sentence and hypothesis [h],
    [PunishOnlyLearner.punish(h, sentence)] ends as
    [RewardOnlyLearner.reward] does on [h XOR (2^P - 1)], with the same final
    weight vector; the P low bits of that grammar are those of [h] flipped;
    and [PunishOnlyLearner.reward] changes nothing. *)
Theorem punish_is_reward_of_complement (d : Domain) (rate : Q) (ws : list Q)
    (w : World) (h s : Z) :
  let punisher :=
    {| cls := PunishOnlyLearner; domain := d; learning_rate := rate;
       weights := ws |} in
  let rewarder :=
    {| cls := RewardOnlyLearner; domain := d; learning_rate := rate;
       weights := ws |} in
  let ones := (2 ^ Z.of_nat (num_params d) - 1)%Z in
  let after_punish := punish h s {| learner := punisher; world := w |} in
  let after_reward :=
    reward (Z.lxor h ones) s {| learner := rewarder; world := w |} in
  after_punish.1 = after_reward.1 ∧
  weights (learner after_punish.2) = weights (learner after_reward.2) ∧
  reward h s {| learner := punisher; world := w |} =
    (Ok tt, {| learner := punisher; world := w |}) ∧
  ∀ j : nat,
    j < num_params d →
    get_param_value (Z.of_nat j) (Z.lxor h ones) =
    (1 - get_param_value (Z.of_nat j) h)%Z.
Proof.
  intros punisher rewarder ones after_punish after_reward.
  subst after_punish after_reward.
  unfold punish, reward, mutate. unfold_monad. simpl.
  change (punish_weights punisher h s)
    with (RewardOnlyLearner_reward rewarder (Z.lxor h ones) s).
  change (reward_weights rewarder (Z.lxor h ones) s)
    with (RewardOnlyLearner_reward rewarder (Z.lxor h ones) s).
  destruct (RewardOnlyLearner_reward rewarder (Z.lxor h ones) s)
    as [ws' [e|]]; simpl.
  all: repeat split; try reflexivity.
  all: intros j Hj; by apply complement_bit.
Qed.

Lemma punish_is_reward_of_complement_witness :
  let st c := {| learner := init c domain13 0.5%Q;
                 world := sample_world high_draws |} in
  (punish 5 1 (st PunishOnlyLearner)).1
    = (reward (Z.lxor 5 8191) 1 (st RewardOnlyLearner)).1 ∧
  weights (learner (punish 5 1 (st PunishOnlyLearner)).2)
    = weights (learner (reward (Z.lxor 5 8191) 1 (st RewardOnlyLearner)).2) ∧
  get_param_value 0 (Z.lxor 5 8191) = (1 - get_param_value 0 5)%Z.
Proof.
  pose proof (punish_is_reward_of_complement domain13 0.5%Q
                (replicate 13 0.5%Q) (sample_world high_draws) 5 1)
    as (H1 & H2 & _ & H4).
  split; [exact H1|]. split; [exact H2|].
  apply (H4 0%nat). simpl. lia.
Defined.

(** ** The reward loops, index by index *)

Lemma for_index_ext (f g : nat → list Q → list Q * option exn) :
  (∀ index ws, f index ws = g index ws) →
  ∀ indices ws, for_index indices f ws = for_index indices g ws.
Proof.
  intros Hfg indices. induction indices as [|index rest IH]; intros ws; simpl.
  - reflexivity.
  - rewrite Hfg. destruct (g index ws) as [ws' [e|]]; [reflexivity|apply IH].
Qed.

Lemma RewardOnlyLearner_reward_perform (self : Learner) (h s : Z) :
  RewardOnlyLearner_reward self h s =
  for_index (seq 0 13) (perform (reward_only_action (learning_rate self)) h)
    (weights self).
Proof. reflexivity. Qed.

Lemma RewardOnlyRelevantLearner_reward_perform (self : Learner) (h s : Z)
    (trigger_str : string) :
  sentence_irr (domain self) !! s = Some trigger_str →
  RewardOnlyRelevantLearner_reward self h s =
  for_index (seq 0 13)
    (perform (relevant_action (learning_rate self) trigger_str) h)
    (weights self).
Proof.
  intros Hs. unfold RewardOnlyRelevantLearner_reward. rewrite Hs.
  apply for_index_ext. intros index ws. unfold perform, relevant_action.
  destruct (get index trigger_str) as [c|]; [|reflexivity].
  by destruct (Ascii.eqb c "~").
Qed.

Lemma SkepticalRewardOnlyLearner_reward_perform (self : Learner) (h s : Z)
    (trigger_str : string) :
  sentence_irr (domain self) !! s = Some trigger_str →
  SkepticalRewardOnlyLearner_reward self h s =
  for_index (seq 0 13)
    (perform (skeptical_action (learning_rate self) trigger_str) h)
    (weights self).
Proof.
  intros Hs. unfold SkepticalRewardOnlyLearner_reward. rewrite Hs.
  apply for_index_ext. intros index ws. unfold perform, skeptical_action.
  destruct (get index trigger_str) as [c|]; [|reflexivity].
  by destruct (Ascii.eqb c "~").
Qed.

Section RewardLoop.
Variable act : nat → action.
Variable h : Z.

Lemma first_failure_ge (len a n j : nat) :
  first_failure act len (seq a n) = Some j → a ≤ j.
Proof.
  revert a. induction n as [|n IH]; intros a; simpl; [discriminate|].
  destruct (fails act len a).
  - intros [= ->]. lia.
  - intros H. apply IH in H. lia.
Qed.

Lemma first_failure_None (len : nat) (indices : list nat) :
  (∀ j, j ∈ indices → fails act len j = false) →
  first_failure act len indices = None.
Proof.
  induction indices as [|j rest IH]; intros Hok; simpl; [reflexivity|].
  rewrite Hok by apply list_elem_of_here.
  apply IH. intros k Hk. apply Hok. by apply list_elem_of_further.
Qed.

(** The loop over [range(a, a+n)]: the length of the list is kept, the loop
    ends without exception exactly when no iteration fails, and the weight
    at [i] is the outcome of iteration [i] if the loop gets that far, the
    old weight otherwise. *)
Lemma for_index_perform (n : nat) :
  ∀ a ws ws' e,
    for_index (seq a n) (perform act h) ws = (ws', e) →
    length ws' = length ws ∧
    (e = None ↔ first_failure act (length ws) (seq a n) = None) ∧
    ∀ i, ws' !! i =
         if bool_decide (a ≤ i < a + n)
            && reached (first_failure act (length ws) (seq a n)) i
         then outcome act h i <$> ws !! i
         else ws !! i.
Proof.
  induction n as [|n IH]; intros a ws ws' e; simpl.
  - intros [= <- <-]. split; [done|]. split; [done|].
    intros i. rewrite bool_decide_eq_false_2 by lia. done.
  - unfold perform at 1, fails, outcome.
    destruct (act a) as [| |rate] eqn:Hact.
    + intros [= <- <-]. split; [done|]. split; [done|].
      intros i. simpl.
      case_bool_decide; case_bool_decide; simpl; try done; lia.
    + intros Hloop. apply IH in Hloop as (Hlen & He & Hlook).
      split; [done|]. split; [done|].
      intros i. rewrite Hlook. unfold outcome.
      destruct (decide (i = a)) as [->|Hne].
      * rewrite Hact. rewrite bool_decide_eq_false_2 by lia. simpl.
        destruct (_ && _); [|done]. by destruct (ws !! a).
      * destruct (first_failure act (length ws) (seq (S a) n)); simpl;
          repeat case_bool_decide; simpl; try done; lia.
    + unfold update_weight. destruct (ws !! a) as [weight|] eqn:Hget.
      * pose proof (lookup_lt_Some _ _ _ Hget) as Hlt.
        rewrite bool_decide_eq_false_2 by lia.
        intros Hloop. apply IH in Hloop as (Hlen & He & Hlook).
        rewrite length_insert in *.
        split; [done|]. split; [done|].
        intros i. rewrite Hlook. unfold outcome.
        destruct (decide (i = a)) as [->|Hne].
        -- rewrite Hact.
           rewrite (bool_decide_eq_false_2 (S a ≤ a < _)) by lia.
           simpl. rewrite list_lookup_insert_eq by done.
           rewrite bool_decide_eq_true_2 by lia. simpl.
           destruct (first_failure act (length ws) (seq (S a) n))
             as [j|] eqn:Hff.
           ++ apply first_failure_ge in Hff. simpl.
              rewrite bool_decide_eq_true_2 by lia. by rewrite Hget.
           ++ simpl. by rewrite Hget.
        -- rewrite list_lookup_insert_ne by done.
           destruct (first_failure act (length ws) (seq (S a) n)); simpl;
             repeat case_bool_decide; simpl; try done; lia.
      * pose proof (lookup_ge_None_1 _ _ Hget) as Hge.
        rewrite bool_decide_eq_true_2 by lia.
        intros [= <- <-]. split; [done|]. split; [done|].
        intros i. simpl.
        case_bool_decide; case_bool_decide; simpl; try done; lia.
Qed.

(** A skipped index keeps its weight. *)
Lemma for_index_perform_skip (a n : nat) (ws : list Q) (i : nat) :
  act i = Skip →
  (for_index (seq a n) (perform act h) ws).1 !! i = ws !! i.
Proof.
  intros Hskip.
  destruct (for_index (seq a n) (perform act h) ws) as [ws' e] eqn:Hloop.
  apply for_index_perform in Hloop as (_ & _ & Hlook). simpl.
  rewrite Hlook. unfold outcome. rewrite Hskip.
  destruct (_ && _); [|done]. by destruct (ws !! i).
Qed.

(** The only exception of a reward loop is [IndexError]. *)
Lemma for_index_perform_exn (indices : list nat) :
  ∀ ws e,
    (for_index indices (perform act h) ws).2 = Some e → e = IndexError.
Proof.
  induction indices as [|index rest IH]; intros ws e; simpl; [discriminate|].
  destruct (perform act h index ws) as [ws' [e'|]] eqn:Hbody; [|apply IH].
  simpl. intros [= <-]. unfold perform, update_weight in Hbody.
  destruct (act index); [congruence|congruence|].
  destruct (ws !! index); congruence.
Qed.
End RewardLoop.

Lemma first_failure_ext (act act' : nat → action) (len : nat) :
  (∀ j, fails act len j = fails act' len j) →
  ∀ indices, first_failure act len indices = first_failure act' len indices.
Proof.
  intros Hsame indices. induction indices as [|j rest IH]; simpl.
  - reflexivity.
  - by rewrite Hsame, IH.
Qed.

Lemma skeptical_fails (rate : Q) (trigger_str : string) (len j : nat) :
  fails (skeptical_action rate trigger_str) len j =
  fails (relevant_action rate trigger_str) len j.
Proof.
  unfold fails, skeptical_action, relevant_action.
  destruct (get j trigger_str) as [c|]; [|reflexivity].
  by destruct (Ascii.eqb c "~").
Qed.

(** ** Relevance-filtered reward *)

(** A weight marked irrelevant is never changed, whatever the number of
    weights and however the call ends. *)
Lemma relevant_reward_frame (self : Learner) (h s : Z) (i : nat) :
  annotation (domain self) s i = Some "~"%char →
  (RewardOnlyRelevantLearner_reward self h s).1 !! i = weights self !! i.
Proof.
  unfold annotation. intros Hnote.
  destruct (sentence_irr (domain self) !! s) as [trigger_str|] eqn:Hs;
    [|discriminate].
  simpl in Hnote.
  rewrite (RewardOnlyRelevantLearner_reward_perform _ _ _ _ Hs).
  apply for_index_perform_skip. unfold relevant_action. by rewrite Hnote.
Qed.

(** With thirteen weights and an annotation of at least thirteen characters,
    the call ends without exception, keeps the weights marked irrelevant and
    updates all the others. *)
Lemma relevant_reward_13 (self : Learner) (h s : Z) (trigger_str : string) :
  sentence_irr (domain self) !! s = Some trigger_str →
  length (weights self) = 13 →
  (∀ i, i < 13 → is_Some (get i trigger_str)) →
  (RewardOnlyRelevantLearner_reward self h s).2 = None ∧
  ∀ i w,
    weights self !! i = Some w →
    (RewardOnlyRelevantLearner_reward self h s).1 !! i =
    Some (if bool_decide (get i trigger_str = Some "~"%char) then w
          else nudge (learning_rate self)
                 (get_param_value (12 - Z.of_nat i) h) w).
Proof.
  intros Hs Hlen Hnote.
  rewrite (RewardOnlyRelevantLearner_reward_perform _ _ _ _ Hs).
  destruct (for_index _ _ _) as [ws' e] eqn:Hloop.
  apply for_index_perform in Hloop as (_ & He & Hlook). simpl.
  assert (Hnone : first_failure
                    (relevant_action (learning_rate self) trigger_str)
                    (length (weights self)) (seq 0 13) = None).
  { apply first_failure_None. intros j Hj. apply elem_of_seq in Hj.
    unfold fails, relevant_action.
    destruct (Hnote j) as [c ->]; [lia|].
    destruct (Ascii.eqb c "~"); [done|]. apply bool_decide_eq_false_2. lia. }
  split; [by apply He|].
  intros i w Hw. pose proof (lookup_lt_Some _ _ _ Hw) as Hlt.
  rewrite Hlook, Hnone, Hw. rewrite bool_decide_eq_true_2 by lia. simpl.
  f_equal. unfold outcome, relevant_action.
  destruct (Hnote i) as [c Hc]; [lia|]. rewrite Hc.
  destruct (Ascii.eqb_spec c "~") as [->|Hne].
  - by rewrite bool_decide_eq_true_2.
  - rewrite bool_decide_eq_false_2; [done|]. congruence.
Qed.

(** C7 (fails on the code). In a domain of fourteen parameters, with a
    sentence whose annotation marks no parameter irrelevant and the hypothesis
    grammar 0, one call to [RewardOnlyRelevantLearner.reward] lowers the
    weights of parameters 0 to 12 and leaves the weight of parameter 13 at
    0.5: the loop runs over [range(13)], whatever the number of weights. *)
Theorem relevant_reward_skips_parameter_13 :
  let self := new_learner RewardOnlyRelevantLearner domain14 in
  annotation domain14 1 <$> seq 0 14 = replicate 14 (Some "0"%char) ∧
  weights self = replicate 14 0.5%Q ∧
  RewardOnlyRelevantLearner_reward self 0 1 =
    (replicate 13 (nudge 0.0005 0 0.5) ++ [0.5%Q], None) ∧
  (nudge 0.0005 0 0.5 < 0.5)%Q.
Proof.
  simpl. split; [reflexivity|]. split; [reflexivity|].
  split; [vm_compute; reflexivity|]. unfold nudge. simpl. lra.
Qed.

(** ** Skeptical reward *)

Lemma nudge_half (rate : Q) (val : Z) (w : Q) :
  (Qabs (nudge (rate / 2) val w - w) == Qabs (nudge rate val w - w) / 2)%Q.
Proof.
  assert (E : (nudge (rate / 2) val w - w == (nudge rate val w - w) * (1 / 2))%Q).
  { unfold nudge. destruct (val =? 0)%Z; [field|].
    destruct (val =? 1)%Z; field. }
  rewrite E, Qabs_Qmult. unfold Qdiv. by rewrite Qmult_1_l.
Qed.

Lemma no_change_half (w : Q) : (Qabs (w - w) == Qabs (w - w) / 2)%Q.
Proof.
  assert (E : (w - w == 0)%Q) by ring.
  rewrite E. reflexivity.
Qed.

(** With thirteen weights and an annotation of at least thirteen characters,
    the skeptical reward ends without exception and updates every parameter
    not marked irrelevant, at half the rate where it is marked ambiguous. *)
Lemma skeptical_reward_13 (self : Learner) (h s : Z) (trigger_str : string) :
  sentence_irr (domain self) !! s = Some trigger_str →
  length (weights self) = 13 →
  (∀ i, i < 13 → is_Some (get i trigger_str)) →
  (SkepticalRewardOnlyLearner_reward self h s).2 = None ∧
  ∀ i w,
    weights self !! i = Some w →
    (SkepticalRewardOnlyLearner_reward self h s).1 !! i =
    Some (if bool_decide (get i trigger_str = Some "~"%char) then w
          else nudge (if bool_decide (get i trigger_str = Some "*"%char)
                      then (learning_rate self / 2)%Q
                      else learning_rate self)
                 (get_param_value (12 - Z.of_nat i) h) w).
Proof.
  intros Hs Hlen Hnote.
  rewrite (SkepticalRewardOnlyLearner_reward_perform _ _ _ _ Hs).
  destruct (for_index _ _ _) as [ws' e] eqn:Hloop.
  apply for_index_perform in Hloop as (_ & He & Hlook). simpl.
  assert (Hnone : first_failure
                    (skeptical_action (learning_rate self) trigger_str)
                    (length (weights self)) (seq 0 13) = None).
  { apply first_failure_None. intros j Hj. apply elem_of_seq in Hj.
    unfold fails, skeptical_action.
    destruct (Hnote j) as [c ->]; [lia|].
    destruct (Ascii.eqb c "~"); [done|]. apply bool_decide_eq_false_2. lia. }
  split; [by apply He|].
  intros i w Hw. pose proof (lookup_lt_Some _ _ _ Hw) as Hlt.
  rewrite Hlook, Hnone, Hw. rewrite bool_decide_eq_true_2 by lia. simpl.
  f_equal. unfold outcome, skeptical_action.
  destruct (Hnote i) as [c Hc]; [lia|]. rewrite Hc.
  destruct (Ascii.eqb_spec c "~") as [->|Htilde].
  - by rewrite bool_decide_eq_true_2.
  - rewrite (bool_decide_eq_false_2 (Some c = Some "~"%char)) by congruence.
    destruct (Ascii.eqb_spec c "*") as [->|Hstar].
    + by rewrite bool_decide_eq_true_2.
    + rewrite bool_decide_eq_false_2; [done|]. congruence.
Qed.

(** In the exact-rational model, for every parameter [i], with the same
    starting weights, learning rate, hypothesis and sentence: if the sentence
    annotates [i] as ambiguous, the magnitude of the change of weight [i] made
    by the skeptical reward is half the magnitude of the change made by the
    relevance-filtered reward; otherwise the two leave the same weight at
    [i]. Both calls end the same way. In binary64 the halving is exact only
    up to rounding: see [Binary64Facts] below. *)
Theorem skeptical_halves_ambiguous (d : Domain) (rate : Q) (ws : list Q)
    (h s : Z) (i : nat) (w : Q) :
  let relevant :=
    {| cls := RewardOnlyRelevantLearner; domain := d; learning_rate := rate;
       weights := ws |} in
  let skeptical :=
    {| cls := SkepticalRewardOnlyLearner; domain := d; learning_rate := rate;
       weights := ws |} in
  ws !! i = Some w →
  (reward_weights skeptical h s).2 = (reward_weights relevant h s).2 ∧
  ∃ w_rel w_sk,
    (reward_weights relevant h s).1 !! i = Some w_rel ∧
    (reward_weights skeptical h s).1 !! i = Some w_sk ∧
    (annotation d s i = Some "*"%char →
     (Qabs (w_sk - w) == Qabs (w_rel - w) / 2)%Q) ∧
    (annotation d s i ≠ Some "*"%char → w_sk = w_rel).
Proof.
  intros relevant skeptical Hw. unfold reward_weights, annotation.
  cbn [cls relevant skeptical].
  destruct (sentence_irr d !! s) as [trigger_str|] eqn:Hs.
  - rewrite (RewardOnlyRelevantLearner_reward_perform relevant h s _ Hs).
    rewrite (SkepticalRewardOnlyLearner_reward_perform skeptical h s _ Hs).
    cbn [learning_rate weights relevant skeptical].
    destruct (for_index (seq 0 13) (perform (relevant_action rate trigger_str) h) ws)
      as [ws_rel e_rel] eqn:Hrel.
    destruct (for_index (seq 0 13) (perform (skeptical_action rate trigger_str) h) ws)
      as [ws_sk e_sk] eqn:Hsk.
    pose proof (for_index_perform_exn
                  (relevant_action rate trigger_str) h (seq 0 13) ws) as Hx_rel.
    pose proof (for_index_perform_exn
                  (skeptical_action rate trigger_str) h (seq 0 13) ws) as Hx_sk.
    rewrite Hrel in Hx_rel. rewrite Hsk in Hx_sk. simpl in Hx_rel, Hx_sk.
    apply for_index_perform in Hrel as (_ & He_rel & Hrel).
    apply for_index_perform in Hsk as (_ & He_sk & Hsk).
    rewrite (first_failure_ext _ _ _
               (skeptical_fails rate trigger_str (length ws)))
      in He_sk, Hsk.
    simpl. split.
    { destruct e_rel, e_sk; try done.
      - by rewrite (Hx_rel _ eq_refl), (Hx_sk _ eq_refl).
      - destruct He_rel as [_ Hr2], He_sk as [Hs1 _].
        by specialize (Hr2 (Hs1 eq_refl)).
      - destruct He_rel as [Hr1 _], He_sk as [_ Hs2].
        by specialize (Hs2 (Hr1 eq_refl)). }
    rewrite Hrel, Hsk, Hw. simpl.
    destruct (_ && _); simpl.
    + eexists _, _. split; [done|]. split; [done|].
      unfold outcome, relevant_action, skeptical_action.
      destruct (get i trigger_str) as [c|]; simpl.
      * destruct (Ascii.eqb_spec c "~") as [->|Htilde].
        -- split; [discriminate|done].
        -- destruct (Ascii.eqb_spec c "*") as [->|Hstar].
           ++ split; [|done]. intros _. apply nudge_half.
           ++ split; [|done]. congruence.
      * split; [discriminate|done].
    + exists w, w. split; [done|]. split; [done|]. split; [|done].
      intros _. apply no_change_half.
  - unfold RewardOnlyRelevantLearner_reward, SkepticalRewardOnlyLearner_reward.
    cbn [domain weights relevant skeptical]. rewrite Hs.
    simpl. split; [done|]. exists w, w. split; [done|]. split; [done|].
    split; [discriminate|done].
Qed.

Lemma skeptical_halves_ambiguous_witness :
  let relevant := init RewardOnlyRelevantLearner domain13 0.5%Q in
  let skeptical := init SkepticalRewardOnlyLearner domain13 0.5%Q in
  annotation domain13 1 2 = Some "*"%char ∧
  ∃ w_rel w_sk,
    (reward_weights relevant 0 1).1 !! 2 = Some w_rel ∧
    (reward_weights skeptical 0 1).1 !! 2 = Some w_sk ∧
    (Qabs (w_sk - 0.5) == Qabs (w_rel - 0.5) / 2)%Q.
Proof.
  split; [reflexivity|].
  destruct (skeptical_halves_ambiguous domain13 0.5%Q (replicate 13 0.5%Q)
              0 1 2 0.5%Q eq_refl)
    as (_ & w_rel & w_sk & H1 & H2 & H3 & _).
  exists w_rel, w_sk. split; [exact H1|]. split; [exact H2|].
  apply H3. reflexivity.
Defined.

(** ** Skeptical reward in binary64 *)

Module Binary64Facts.
Import PrimFloat Binary64.

Lemma loop64_first_failure_ge (act : nat → action) (len a n j : nat) :
  first_failure act len (seq a n) = Some j → a ≤ j.
Proof.
  revert a. induction n as [|n IH]; intros a; simpl; [discriminate|].
  destruct (fails act len a).
  - intros [= ->]. lia.
  - intros H. apply IH in H. lia.
Qed.

Lemma loop64_perform (act : nat → action) (h : Z) (n : nat) :
  ∀ a ws ws' e,
    for_index (seq a n) (perform act h) ws = (ws', e) →
    length ws' = length ws ∧
    (e = None ↔ first_failure act (length ws) (seq a n) = None) ∧
    (∀ e', e = Some e' → e' = IndexError) ∧
    ∀ i, ws' !! i =
         if bool_decide (a ≤ i < a + n)
            && reached (first_failure act (length ws) (seq a n)) i
         then outcome act h i <$> ws !! i
         else ws !! i.
Proof.
  induction n as [|n IH]; intros a ws ws' e; simpl.
  - intros [= <- <-]. split; [done|]. split; [done|]. split; [done|].
    intros i. rewrite bool_decide_eq_false_2 by lia. done.
  - unfold perform at 1, fails, outcome.
    destruct (act a) as [| |rate] eqn:Hact.
    + intros [= <- <-]. split; [done|]. split; [done|].
      split; [by intros e' [= <-]|].
      intros i. simpl.
      case_bool_decide; case_bool_decide; simpl; try done; lia.
    + intros Hloop. apply IH in Hloop as (Hlen & He & Hexn & Hlook).
      split; [done|]. split; [done|]. split; [done|].
      intros i. rewrite Hlook. unfold outcome.
      destruct (decide (i = a)) as [->|Hne].
      * rewrite Hact. rewrite bool_decide_eq_false_2 by lia. simpl.
        destruct (_ && _); [|done]. by destruct (ws !! a).
      * destruct (first_failure act (length ws) (seq (S a) n)); simpl;
          repeat case_bool_decide; simpl; try done; lia.
    + unfold update_weight. destruct (ws !! a) as [weight|] eqn:Hget.
      * pose proof (lookup_lt_Some _ _ _ Hget) as Hlt.
        rewrite bool_decide_eq_false_2 by lia.
        intros Hloop. apply IH in Hloop as (Hlen & He & Hexn & Hlook).
        rewrite length_insert in *.
        split; [done|]. split; [done|]. split; [done|].
        intros i. rewrite Hlook. unfold outcome.
        destruct (decide (i = a)) as [->|Hne].
        -- rewrite Hact.
           rewrite (bool_decide_eq_false_2 (S a ≤ a < _)) by lia.
           simpl. rewrite list_lookup_insert_eq by done.
           rewrite bool_decide_eq_true_2 by lia. simpl.
           destruct (first_failure act (length ws) (seq (S a) n))
             as [j|] eqn:Hff.
           ++ apply loop64_first_failure_ge in Hff. simpl.
              rewrite bool_decide_eq_true_2 by lia. by rewrite Hget.
           ++ simpl. by rewrite Hget.
        -- rewrite list_lookup_insert_ne by done.
           destruct (first_failure act (length ws) (seq (S a) n)); simpl;
             repeat case_bool_decide; simpl; try done; lia.
      * pose proof (lookup_ge_None_1 _ _ Hget) as Hge.
        rewrite bool_decide_eq_true_2 by lia.
        intros [= <- <-]. split; [done|]. split; [done|].
        split; [by intros e' [= <-]|].
        intros i. simpl.
        case_bool_decide; case_bool_decide; simpl; try done; lia.
Qed.

Lemma loop64_ext (f g : nat → list float → list float * option exn) :
  (∀ index ws, f index ws = g index ws) →
  ∀ indices ws, for_index indices f ws = for_index indices g ws.
Proof.
  intros Hfg indices. induction indices as [|index rest IH]; intros ws; simpl.
  - reflexivity.
  - rewrite Hfg. destruct (g index ws) as [ws' [e|]]; [reflexivity|apply IH].
Qed.

Lemma relevant64_perform (d : Domain) (rate : float) (ws : list float)
    (h s : Z) (t : string) :
  sentence_irr d !! s = Some t →
  RewardOnlyRelevantLearner_reward d rate ws h s =
  for_index (seq 0 13) (perform (relevant_action rate t) h) ws.
Proof.
  intros Hs. unfold RewardOnlyRelevantLearner_reward. rewrite Hs.
  apply loop64_ext. intros index ws0. unfold perform, relevant_action.
  destruct (get index t) as [c|]; [|reflexivity].
  by destruct (Ascii.eqb c "~").
Qed.

Lemma skeptical64_perform (d : Domain) (rate : float) (ws : list float)
    (h s : Z) (t : string) :
  sentence_irr d !! s = Some t →
  SkepticalRewardOnlyLearner_reward d rate ws h s =
  for_index (seq 0 13) (perform (skeptical_action rate t) h) ws.
Proof.
  intros Hs. unfold SkepticalRewardOnlyLearner_reward. rewrite Hs.
  apply loop64_ext. intros index ws0. unfold perform, skeptical_action.
  destruct (get index t) as [c|]; [|reflexivity].
  by destruct (Ascii.eqb c "~").
Qed.

Lemma loop64_first_failure_ext (act act' : nat → action) (len : nat) :
  (∀ j, fails act len j = fails act' len j) →
  ∀ indices, first_failure act len indices = first_failure act' len indices.
Proof.
  intros Hsame indices. induction indices as [|j rest IH]; simpl.
  - reflexivity.
  - by rewrite Hsame, IH.
Qed.

Lemma skeptical64_fails (rate : float) (t : string) (len j : nat) :
  fails (skeptical_action rate t) len j = fails (relevant_action rate t) len j.
Proof.
  unfold fails, skeptical_action, relevant_action.
  destruct (get j t) as [c|]; [|reflexivity].
  by destruct (Ascii.eqb c "~").
Qed.

(** C8 (as the code has it). In binary64, for every parameter [i], with the
    same starting weights, learning rate, hypothesis and sentence: where the
    sentence annotates [i] as ambiguous, the skeptical reward stores the
    bounded proportional update of the starting weight computed with the rate
    [learning_rate / 2] exactly where the relevance-filtered reward stores the
    one computed with [learning_rate] (always so when [i < 13] and the call
    returns normally), and both leave the weight alone otherwise; where [i]
    is not annotated ambiguous the two store the same weight. Both calls end
    the same way. *)
Theorem skeptical_applies_half_rate (d : Domain) (rate : float)
    (ws : list float) (h s : Z) (i : nat) (w : float) :
  ws !! i = Some w →
  let relevant := RewardOnlyRelevantLearner_reward d rate ws h s in
  let skeptical := SkepticalRewardOnlyLearner_reward d rate ws h s in
  let bit := get_param_value (12 - Z.of_nat i) h in
  skeptical.2 = relevant.2 ∧
  ∃ w_rel w_sk,
    relevant.1 !! i = Some w_rel ∧
    skeptical.1 !! i = Some w_sk ∧
    (annotation d s i = Some "*"%char →
     (w_rel = w ∧ w_sk = w) ∨
     (w_rel = nudge rate bit w ∧ w_sk = nudge (rate / 2)%float bit w)) ∧
    (annotation d s i = Some "*"%char → i < 13 → relevant.2 = None →
     w_rel = nudge rate bit w ∧ w_sk = nudge (rate / 2)%float bit w) ∧
    (annotation d s i ≠ Some "*"%char → w_sk = w_rel).
Proof.
  intros Hw relevant skeptical bit. subst relevant skeptical.
  unfold annotation.
  destruct (sentence_irr d !! s) as [t|] eqn:Hs.
  - rewrite (relevant64_perform _ _ _ _ _ _ Hs),
      (skeptical64_perform _ _ _ _ _ _ Hs).
    destruct (for_index (seq 0 13) (perform (relevant_action rate t) h) ws)
      as [ws_rel e_rel] eqn:Hrel.
    destruct (for_index (seq 0 13) (perform (skeptical_action rate t) h) ws)
      as [ws_sk e_sk] eqn:Hsk.
    apply loop64_perform in Hrel as (_ & He_rel & Hx_rel & Hrel).
    apply loop64_perform in Hsk as (_ & He_sk & Hx_sk & Hsk).
    rewrite (loop64_first_failure_ext _ _ _ (skeptical64_fails rate t (length ws)))
      in He_sk, Hsk.
    cbn [fst snd]. split.
    { destruct e_rel, e_sk; try done.
      - by rewrite (Hx_rel _ eq_refl), (Hx_sk _ eq_refl).
      - destruct He_rel as [_ Hr2], He_sk as [Hs1 _].
        by specialize (Hr2 (Hs1 eq_refl)).
      - destruct He_rel as [Hr1 _], He_sk as [_ Hs2].
        by specialize (Hs2 (Hr1 eq_refl)). }
    rewrite Hrel, Hsk, Hw. cbn [mbind option_bind].
    destruct (first_failure (relevant_action rate t) (length ws) (seq 0 13))
      as [j|] eqn:Hff.
    + assert (e_rel ≠ None) as Hne.
      { intros ->. destruct He_rel as [He _]. by specialize (He eq_refl). }
      destruct (bool_decide (0 ≤ i < 0 + 13) && reached (Some j) i); simpl.
      * eexists _, _. split; [done|]. split; [done|].
        unfold outcome, relevant_action, skeptical_action.
        destruct (get i t) as [c|]; simpl.
        -- destruct (Ascii.eqb_spec c "~") as [->|Htilde].
           ++ split; [discriminate|]. split; [discriminate|done].
           ++ destruct (Ascii.eqb_spec c "*") as [->|Hstar].
              ** split; [by right|]. split; [done|done].
              ** split; [congruence|]. split; [congruence|done].
        -- split; [discriminate|]. split; [discriminate|done].
      * exists w, w. split; [done|]. split; [done|].
        split; [by left|]. split; [done|done].
    + rewrite andb_true_r.
      case_bool_decide as Hi; simpl.
      * eexists _, _. split; [done|]. split; [done|].
        unfold outcome, relevant_action, skeptical_action.
        destruct (get i t) as [c|]; simpl.
        -- destruct (Ascii.eqb_spec c "~") as [->|Htilde].
           ++ split; [discriminate|]. split; [discriminate|done].
           ++ destruct (Ascii.eqb_spec c "*") as [->|Hstar].
              ** split; [by right|]. split; [done|done].
              ** split; [congruence|]. split; [congruence|done].
        -- split; [discriminate|]. split; [discriminate|done].
      * exists w, w. split; [done|]. split; [done|].
        split; [by left|]. split; [intros; lia|done].
  - unfold RewardOnlyRelevantLearner_reward, SkepticalRewardOnlyLearner_reward.
    rewrite Hs. cbn [fst snd mbind option_bind]. split; [done|].
    exists w, w. split; [done|]. split; [done|].
    split; [discriminate|]. split; [discriminate|done].
Qed.

Lemma skeptical_applies_half_rate_witness :
  let ws := replicate 13 0.5%float in
  let rate := default_learning_rate in
  ∃ w_rel w_sk,
    (RewardOnlyRelevantLearner_reward domain13 rate ws 8191 1).1 !! 2
      = Some w_rel ∧
    (SkepticalRewardOnlyLearner_reward domain13 rate ws 8191 1).1 !! 2
      = Some w_sk ∧
    w_rel = nudge rate 1 0.5%float ∧
    w_sk = nudge (rate / 2)%float 1 0.5%float.
Proof.
  destruct (skeptical_applies_half_rate domain13 default_learning_rate
              (replicate 13 0.5%float) 8191 1 2 0.5%float eq_refl)
    as (_ & w_rel & w_sk & H1 & H2 & _ & H3 & _).
  exists w_rel, w_sk. split; [exact H1|]. split; [exact H2|].
  apply H3; [reflexivity|lia|reflexivity].
Defined.

(** C8 (fails on the code). Thirteen weights of 0.5, the default learning
    rate, every hypothesis bit 1, parameter 2 annotated ambiguous: the exact
    values of the two weights stored for parameter 2 differ from 0.5 by
    amounts of which one is not half the other. *)
Lemma skeptical_delta_not_half :
  let ws := replicate 13 0.5%float in
  let rate := default_learning_rate in
  ∃ w_rel w_sk q_rel q_sk,
    annotation domain13 1 2 = Some "*"%char ∧
    ws !! 2 = Some 0.5%float ∧ exact 0.5%float = Some (1 # 2)%Q ∧
    (RewardOnlyRelevantLearner_reward domain13 rate ws 8191 1).1 !! 2
      = Some w_rel ∧
    (SkepticalRewardOnlyLearner_reward domain13 rate ws 8191 1).1 !! 2
      = Some w_sk ∧
    exact w_rel = Some q_rel ∧ exact w_sk = Some q_sk ∧
    ¬ (Qabs (q_sk - (1 # 2)) == Qabs (q_rel - (1 # 2)) / 2)%Q.
Proof.
  eexists _, _, _, _.
  split; [reflexivity|]. split; [reflexivity|].
  split; [vm_compute; reflexivity|].
  split; [vm_compute; reflexivity|]. split; [vm_compute; reflexivity|].
  split; [vm_compute; reflexivity|]. split; [vm_compute; reflexivity|].
  intros H. vm_compute in H. discriminate H.
Qed.
End Binary64Facts.


(** ** What the learner core leaves unchanged *)

Lemma flip_params_frame (items : list (nat * Q)) :
  ∀ grammar st,
    learner (flip_params items grammar st).2 = learner st ∧
    n_choice (world (flip_params items grammar st).2) = n_choice (world st).
Proof.
  induction items as [|[index w] rest IH]; intros grammar st; simpl.
  - done.
  - unfold_monad. unfold random. simpl.
    match goal with |- context [flip_params rest ?g ?s] =>
      destruct (IH g s) as [H1 H2]; destruct (flip_params rest g s) as [[a|e|] st1]
    end; simpl in *; done.
Qed.

Lemma choose_grammar_frame (fuel : nat) :
  ∀ st,
    learner (choose_grammar fuel st).2 = learner st ∧
    n_choice (world (choose_grammar fuel st).2) = n_choice (world st).
Proof.
  induction fuel as [|fuel IH]; intros st; simpl.
  - done.
  - unfold_monad.
    pose proof (flip_params_frame (enumerate (weights (learner st))) 0%Z st) as [H1 H2].
    destruct (flip_params _ _ st) as [[g|e|] st1]; simpl in *; try done.
    destruct (legal_grammar _ g); simpl; [done|].
    destruct (IH st1) as [H3 H4]. rewrite H3, H4. done.
Qed.

Lemma choose_grammar_legal (fuel : nat) :
  ∀ st grammar st',
    choose_grammar fuel st = (Ok grammar, st') →
    legal_grammar (domain (learner st)) grammar = true.
Proof.
  induction fuel as [|fuel IH]; intros st grammar st'; simpl.
  - discriminate.
  - unfold_monad.
    pose proof (flip_params_frame (enumerate (weights (learner st))) 0%Z st) as [H1 _].
    destruct (flip_params _ _ st) as [[g|e|] st1]; simpl in *; try discriminate.
    destruct (legal_grammar _ g) eqn:Hlegal.
    + intros [= <- <-]. done.
    + intros H. apply IH in H. by rewrite H1 in H.
Qed.

Lemma parses_frame (grammar sentence : Z) (st : State) :
  (parses grammar sentence st).2 = st.
Proof.
  unfold parses. unfold_monad.
  destruct (language _ !! grammar); done.
Qed.

Lemma consume_frame (fuel : nat) (sentence : Z) (st : State) :
  same_config (learner st) (learner (consume fuel sentence st).2) ∧
  n_choice (world (consume fuel sentence st).2) = n_choice (world st).
Proof.
  unfold consume, mbind, M_bind, bind.
  destruct (choose_grammar_frame fuel st) as [H1 H2].
  destruct (choose_grammar fuel st) as [[g|e|] st1]; simpl in *;
    try (rewrite H1; done).
  pose proof (parses_frame g sentence st1) as H3.
  destruct (parses g sentence st1) as [[b|e|] st2]; simpl in *; subst st2;
    try (rewrite H1; done).
  destruct b; unfold reward, punish;
    match goal with |- context [mutate ?m st1] =>
      destruct (mutate_frame m st1) as (H4 & _ & H5) end;
    rewrite H5, H2, <- H1; done.
Qed.

Lemma choice_Ok (seq : list Z) (st st' : State) (x : Z) :
  choice seq st = (Ok x, st') →
  learner st' = learner st ∧ n_choice (world st') = S (n_choice (world st)).
Proof.
  unfold choice. destruct (seq !! _); [|discriminate].
  intros [= <- <-]. done.
Qed.

(** ** The harness loop *)

(** A run of the loop that returns [k]: the configuration of the learner is
    kept; either the learner is converged at the end and [k - counter]
    sentences were drawn, or the cap stopped the loop, [k] is the larger of
    [counter] and the cap, and one more sentence than [k - counter] was
    drawn. A loop entered with a learner that is not converged draws at least
    one sentence. *)
Lemma learn_loop_Ok (fuel : nat) (threshold : Q) (lang : list Z) (cap : Z)
    (n : nat) :
  ∀ counter st k st',
    learn_loop fuel n threshold lang cap counter st = (Ok k, st') →
    same_config (learner st) (learner st') ∧
    (converged (learner st) threshold = false → (1 <= sentences_drawn st st')%Z) ∧
    ((converged (learner st') threshold = true ∧
      sentences_drawn st st' = (k - counter)%Z ∧
      (counter <= k <= Z.max counter cap)%Z) ∨
     (k = Z.max counter cap ∧
      sentences_drawn st st' = (k - counter + 1)%Z)).
Proof.
  unfold sentences_drawn.
  induction n as [|n IH]; intros counter st k st'; simpl.
  - discriminate.
  - unfold mbind at 1, M_bind at 1, bind at 1, get_self at 1.
    destruct (converged (learner st) threshold) eqn:Hconv.
    + unfold_monad. intros [= <- <-]. split; [done|]. split; [done|].
      left. rewrite Hconv. split; [done|]. lia.
    + intros H. apply bind_Ok in H as (sentence & st1 & Hch & H).
      apply choice_Ok in Hch as [Hl1 Hn1].
      apply bind_Ok in H as ([] & st2 & Hcons & H).
      pose proof (consume_frame fuel sentence st1) as [Hc2 Hn2].
      rewrite Hcons in Hc2, Hn2. simpl in Hc2, Hn2.
      rewrite Hl1 in Hc2.
      destruct (counter >=? cap)%Z eqn:Hcap.
      * unfold_monad. injection H as <- <-. split; [done|].
        split; [lia|]. right. split; lia.
      * apply IH in H as (Hc3 & _ & H). split.
        { destruct Hc2 as (?&?&?), Hc3 as (?&?&?). repeat split; congruence. }
        split; [destruct H as [(?&?&?)|(?&?)]; lia|].
        destruct H as [(?&?&?)|(?&?)]; [left|right]; repeat split;
          try done; lia.
Qed.

Lemma learn_loop_converged (fuel n : nat) (threshold : Q) (lang : list Z)
    (cap counter : Z) (st : State) :
  converged (learner st) threshold = true →
  learn_loop fuel (S n) threshold lang cap counter st = (Ok counter, st).
Proof.
  intros Hconv. simpl. unfold_monad. by rewrite Hconv.
Qed.

(** The loop runs its body at most [max 1 (cap - counter + 1)] times: allowing
    more iterations does not change the run. *)
Lemma learn_loop_enough (fuel : nat) (threshold : Q) (lang : list Z) (cap : Z)
    (n : nat) :
  ∀ counter st extra,
    0 < n →
    (cap - counter < Z.of_nat n)%Z →
    learn_loop fuel (n + extra) threshold lang cap counter st =
    learn_loop fuel n threshold lang cap counter st.
Proof.
  induction n as [|n IH]; intros counter st extra Hpos Hn; [lia|].
  simpl. unfold_monad.
  destruct (converged (learner st) threshold); [reflexivity|].
  destruct (choose_sentence lang st) as [[sentence|e|] st1]; try reflexivity.
  destruct (consume fuel sentence st1) as [[[]|e|] st2]; try reflexivity.
  destruct (counter >=? cap)%Z eqn:Hcap; [reflexivity|].
  apply IH; lia.
Qed.


(** C5 (fails on the code). A fresh learner that does not converge, run with
    cap 0, is fed one sentence and [learn_language] returns 0; run with cap 2
    it is fed three sentences and [learn_language] returns 2: when the cap
    stops the loop, the value returned is one less than the number of
    sentences consumed. *)
Theorem learn_language_returns_one_less_at_cap :
  let st := sample_state RewardOnlyLearner domain13 high_draws in
  let run0 := learn_language 2 [1%Z] 0 st in
  let run2 := learn_language 4 [1%Z] 2 st in
  run0.1 = Ok 0%Z ∧ sentences_drawn st run0.2 = 1%Z ∧
  run2.1 = Ok 2%Z ∧ sentences_drawn st run2.2 = 3%Z.
Proof. vm_compute. repeat split. Qed.

(** ** Rows yielded by the harness *)

Lemma run_trial_Ok (fuel : nat) (c : LearnerClass) (d : Domain) (g : Z)
    (lang : list Z) (cap : Z) (t : nat) (st st' : State) (row : Result) :
  run_trial fuel c d g lang cap t st = (Ok row, st') →
  r_grammar row = g ∧ r_trial_num row = t ∧
  legal_grammar d (r_hypothesis row) = true ∧
  (converged_loop (r_weights row) 0.02 = true ∨
   (cap <= r_sentences_consumed row)%Z) ∧
  ∃ st1,
    cls (learner st1) = c ∧ domain (learner st1) = d ∧
    weights (learner st1) = r_weights row ∧
    choose_grammar fuel st1 = (Ok (r_hypothesis row), st').
Proof.
  unfold run_trial. intros H.
  apply bind_Ok in H as ([] & st0 & Hput & H).
  apply bind_Ok in H as (start & st0' & Hstart & H).
  apply bind_Ok in H as (k & st1 & Hlearn & H).
  apply bind_Ok in H as (end_ & st1' & Hend & H).
  apply bind_Ok in H as (hyp & st2 & Hchoose & H).
  unfold_monad. injection H as <- <-. simpl.
  injection Hput as <-. injection Hstart as <- <-. injection Hend as <- <-.
  unfold learn_language in Hlearn.
  apply learn_loop_Ok in Hlearn as ((Hcls & Hdom & _) & _ & Hexit).
  simpl in Hcls, Hdom.
  pose proof (choose_grammar_frame fuel
                {| learner := learner st1;
                   world := {| floats := floats (world st1);
                               picks := picks (world st1);
                               clock := clock (world st1);
                               n_random := n_random (world st1);
                               n_choice := n_choice (world st1);
                               n_now := S (n_now (world st1)) |} |})
    as [Hself _].
  pose proof (choose_grammar_legal _ _ _ _ Hchoose) as Hlegal.
  rewrite Hchoose in Hself. simpl in Hself, Hlegal.
  rewrite <- Hdom in Hlegal. rewrite Hself.
  split; [done|]. split; [done|]. split; [done|]. split.
  - destruct Hexit as [(Hconv & _)|(-> & _)]; [by left|right; lia].
  - eexists. split; [|split; [|split; [|exact Hchoose]]]; done.
Qed.

Lemma run_trials_Forall (P : Result → Prop) (fuel : nat) (c : LearnerClass)
    (d : Domain) (g : Z) (lang : list Z) (cap : Z) :
  (∀ t st row st',
     run_trial fuel c d g lang cap t st = (Ok row, st') → P row) →
  ∀ trial_nums st,
    Forall P (run_trials fuel c d g lang cap trial_nums st).1.1.
Proof.
  intros Hrow trial_nums.
  induction trial_nums as [|t rest IH]; intros st; simpl.
  - constructor.
  - destruct (run_trial fuel c d g lang cap t st) as [[row|e|] st1] eqn:Htrial;
      simpl; try constructor.
    specialize (IH st1).
    destruct (run_trials fuel c d g lang cap rest st1) as [[rows r] st2].
    simpl in *. constructor; [|exact IH]. by eapply Hrow.
Qed.

Lemma run_vl_on_languages_Forall (P : Result → Prop) (fuel : nat)
    (c : LearnerClass) (n : nat) (cap : Z) (d : Domain) :
  (∀ g lang t st row st',
     run_trial fuel c d g lang cap t st = (Ok row, st') → P row) →
  ∀ grammar_ids st,
    Forall P (run_vl_on_languages fuel c grammar_ids n cap d st).1.1.
Proof.
  intros Hrow grammar_ids.
  induction grammar_ids as [|g rest IH]; intros st; simpl.
  - constructor.
  - destruct (language d !! g) as [sentences|]; [|constructor].
    pose proof (run_trials_Forall P fuel c d g (elements sentences) cap
                  (Hrow g (elements sentences)) (seq 0 n) st) as Htrials.
    destruct (run_trials fuel c d g (elements sentences) cap (seq 0 n) st)
      as [[rows r] st1].
    simpl in Htrials. destruct r as [[]|e|]; simpl; try exact Htrials.
    specialize (IH st1).
    destruct (run_vl_on_languages fuel c rest n cap d st1) as [[rows' r'] st2].
    simpl in *. by apply Forall_app.
Qed.

(** The steps of one trial that yields a row. *)
Lemma run_trial_steps (fuel : nat) (c : LearnerClass) (d : Domain) (g : Z)
    (lang : list Z) (cap : Z) (t : nat) (st st' : State) (row : Result) :
  run_trial fuel c d g lang cap t st = (Ok row, st') →
  ∃ start stA stB end_ stC,
    trial_start c d st = (Ok start, stA) ∧
    learn_language fuel lang cap stA = (Ok (r_sentences_consumed row), stB) ∧
    now stB = (Ok end_, stC) ∧
    choose_grammar fuel stC = (Ok (r_hypothesis row), st') ∧
    r_weights row = weights (learner stB) ∧
    learner stC = learner stB ∧ learner st' = learner stB ∧
    r_grammar row = g ∧ r_trial_num row = t ∧
    r_runtime row = (end_ - start)%Z.
Proof.
  unfold run_trial. intros H.
  apply bind_Ok in H as ([] & st0 & Hput & H).
  apply bind_Ok in H as (start & stA & Hstart & H).
  apply bind_Ok in H as (k & stB & Hlearn & H).
  apply bind_Ok in H as (end_ & stC & Hend & H).
  apply bind_Ok in H as (hyp & st2 & Hchoose & H).
  unfold get_self, mbind, M_bind, bind, mret, M_ret, ret in H.
  injection H as <- <-. simpl.
  exists start, stA, stB, end_, stC.
  pose proof (choose_grammar_frame fuel stC) as [Hself _].
  rewrite Hchoose in Hself. simpl in Hself.
  assert (HC : learner stC = learner stB) by (injection Hend as _ <-; done).
  split.
  { unfold trial_start, mbind, M_bind, bind. by rewrite Hput, Hstart. }
  split; [done|]. split; [done|]. split; [done|].
  split; [by rewrite Hself, HC|]. split; [done|]. split; [by rewrite Hself|].
  done.
Qed.

(** The rows of the inner loop come from a chain of trials. *)
Lemma run_trials_chain (fuel : nat) (c : LearnerClass) (d : Domain) (g : Z)
    (sentences : gset Z) (cap : Z) (trial_nums : list nat) :
  language d !! g = Some sentences →
  ∀ st, ∃ trials,
    let run := run_trials fuel c d g (elements sentences) cap trial_nums st in
    run.1.1 = rows_of trials ∧ linked st trials ∧
    Forall (trial_of fuel c d cap) trials ∧
    (run.1.2 = Ok tt → run.2 = chain_end st trials).
Proof.
  intros Hlang. induction trial_nums as [|t rest IH]; intros st;
    cbn [run_trials].
  - by exists [].
  - destruct (run_trial fuel c d g (elements sentences) cap t st)
      as [[row|e|] st1] eqn:Htrial; try (by exists []).
    destruct (IH st1) as (trials & Hrows & Hlinked & Hall & Hend).
    cbn zeta in *.
    destruct (run_trials fuel c d g (elements sentences) cap rest st1)
      as [[rows r] st2].
    cbn [fst snd] in *.
    exists ((st, row, st1) :: trials). split; [by rewrite Hrows|].
    split; [done|]. split.
    + constructor; [|done]. exists sentences. cbn [fst snd].
      pose proof (run_trial_steps _ _ _ _ _ _ _ _ _ _ Htrial)
        as (?&?&?&?&?&_&_&_&_&_&_&_&Hg&Ht&_).
      by rewrite Hg, Ht.
    + intros Hr. by rewrite (Hend Hr).
Qed.

Lemma linked_app (st : State) (t1 t2 : chain) :
  linked st t1 → linked (chain_end st t1) t2 → linked st (t1 ++ t2).
Proof.
  revert st. induction t1 as [|[[st0 row] st'] t1 IH]; intros st; simpl.
  - done.
  - intros [-> H1] H2. split; [done|]. by apply IH.
Qed.

Lemma chain_end_app (st : State) (t1 t2 : chain) :
  chain_end st (t1 ++ t2) = chain_end (chain_end st t1) t2.
Proof.
  revert st. induction t1 as [|[[st0 row] st'] t1 IH]; intros st; simpl;
    [done|apply IH].
Qed.

Lemma run_vl_on_languages_chain (fuel : nat) (c : LearnerClass)
    (grammar_ids : list Z) (num_learners : nat) (cap : Z) (d : Domain) :
  ∀ st, ∃ trials,
    (run_vl_on_languages fuel c grammar_ids num_learners cap d st).1.1
      = rows_of trials ∧
    linked st trials ∧
    Forall (trial_of fuel c d cap) trials.
Proof.
  induction grammar_ids as [|g rest IH]; intros st; cbn [run_vl_on_languages].
  - by exists [].
  - destruct (language d !! g) as [sentences|] eqn:Hlang; [|by exists []].
    destruct (run_trials_chain fuel c d g sentences cap (seq 0 num_learners)
                Hlang st) as (t1 & Hrows & Hlinked & Hall & Hend).
    cbn zeta in *.
    destruct (run_trials fuel c d g (elements sentences) cap
                (seq 0 num_learners) st) as [[rows r] st1].
    cbn [fst snd] in *.
    destruct r as [[]|e|]; cbn [fst snd]; try (by exists t1).
    destruct (IH st1) as (t2 & Hrows2 & Hlinked2 & Hall2).
    destruct (run_vl_on_languages fuel c rest num_learners cap d st1)
      as [[rows' r'] st2].
    cbn [fst snd] in *. exists (t1 ++ t2).
    split; [unfold rows_of in *; by rewrite fmap_app, Hrows, Hrows2|].
    split; [|by apply Forall_app].
    apply linked_app; [done|]. by rewrite <- (Hend eq_refl).
Qed.

(** C6 (as the code has it). The rows yielded by [run_vl_on_languages] come
    from a chain of trials that starts in the initial state, each trial
    starting where the one before it ended. In every trial the grammar of the
    row, the field after the number of sentences consumed, is the grammar
    returned by [choose_grammar] called in the state reached after
    [learn_language] and the second reading of the clock, on the learner with
    its final weights; the domain accepts it as legal. *)
Theorem yielded_grammar_is_sampled (fuel : nat) (c : LearnerClass)
    (grammar_ids : list Z) (num_learners : nat) (num_sentences : Z)
    (d : Domain) (st : State) :
  ∃ trials : chain,
    (run_vl_on_languages fuel c grammar_ids num_learners num_sentences d
       st).1.1 = rows_of trials ∧
    linked st trials ∧
    Forall
      (fun x =>
         let row := x.1.2 in
         ∃ sentences start stA stB end_ stC,
           language d !! r_grammar row = Some sentences ∧
           trial_start c d x.1.1 = (Ok start, stA) ∧
           learn_language fuel (elements sentences) num_sentences stA
             = (Ok (r_sentences_consumed row), stB) ∧
           now stB = (Ok end_, stC) ∧
           choose_grammar fuel stC = (Ok (r_hypothesis row), x.2) ∧
           r_weights row = weights (learner stC) ∧
           learner stC = learner stB ∧
           legal_grammar d (r_hypothesis row) = true)
      trials.
Proof.
  destruct (run_vl_on_languages_chain fuel c grammar_ids num_learners
              num_sentences d st) as (trials & Hrows & Hlinked & Hall).
  exists trials. split; [exact Hrows|]. split; [exact Hlinked|].
  eapply Forall_impl; [exact Hall|].
  intros [[st0 row] st'] (sentences & Hlang & Htrial). cbn [fst snd] in *.
  pose proof (run_trial_Ok _ _ _ _ _ _ _ _ _ _ Htrial)
    as (_ & _ & Hlegal & _).
  apply run_trial_steps in Htrial
    as (start & stA & stB & end_ & stC & H1 & H2 & H3 & H4 & H5 & H6 & _).
  exists sentences, start, stA, stB, end_, stC.
  rewrite H6. done.
Qed.

(** C6 (fails on the code). One trial with cap 0 on the language of grammar
    0: the thirteen coin flips of the only [consume] succeed, the weights
    rise to 0.50025 and [best_guess] is 8191; the coin flips made for the row
    fail and the row holds grammar 0. *)
Lemma yielded_grammar_is_not_best_guess :
  let run :=
    run_vl_on_languages 2 RewardOnlyLearner [0%Z] 1 0 domain13
      (sample_state VariationalLearner domain13 mixed_draws) in
  ∃ row,
    run.1 = ([row], Ok tt) ∧
    r_weights row = weights (learner run.2) ∧
    best_guess (learner run.2) = 8191%Z ∧
    r_hypothesis row = 0%Z ∧
    r_hypothesis row ≠ best_guess (learner run.2).
Proof.
  eexists. vm_compute. repeat split; try reflexivity. discriminate.
Qed.

(** A run of the loop that returns is a run of the loop of the spec, with
    the same threshold at every test. *)
Lemma learn_loop_run (fuel : nat) (threshold : Q) (lang : list Z) (cap : Z)
    (n : nat) :
  ∀ counter st k st',
    learn_loop fuel n threshold lang cap counter st = (Ok k, st') →
    loop_run fuel threshold lang cap counter st k st'.
Proof.
  induction n as [|n IH]; intros counter st k st'; simpl; [discriminate|].
  unfold mbind at 1, M_bind at 1, bind at 1, get_self at 1.
  destruct (converged (learner st) threshold) eqn:Hconv.
  - unfold_monad. intros [= <- <-]. by apply loop_converged.
  - intros H. apply bind_Ok in H as (sentence & st1 & Hch & H).
    apply bind_Ok in H as ([] & st2 & Hcons & H).
    destruct (counter >=? cap)%Z eqn:Hcap.
    + unfold_monad. injection H as <- <-.
      eapply loop_capped; eauto. lia.
    + eapply loop_continue; eauto. lia.
Qed.

(** Conversely, with enough iterations allowed. *)
Lemma loop_run_learn (fuel : nat) (threshold : Q) (lang : list Z) (cap : Z)
    (counter : Z) (st : State) (k : Z) (st' : State) :
  loop_run fuel threshold lang cap counter st k st' →
  ∀ n, (0 < n) → (cap - counter < Z.of_nat n)%Z →
       learn_loop fuel n threshold lang cap counter st = (Ok k, st').
Proof.
  induction 1 as [counter st Hconv
                 |counter st sentence st1 st2 Hconv Hch Hcons Hcap
                 |counter st sentence st1 st2 k st' Hconv Hch Hcons Hcap _ IH];
    intros n Hn Hbound; destruct n as [|n]; try lia; simpl; unfold_monad.
  - by rewrite Hconv.
  - rewrite Hconv, Hch, Hcons.
    destruct (counter >=? cap)%Z eqn:E; [done|lia].
  - rewrite Hconv, Hch, Hcons.
    destruct (counter >=? cap)%Z eqn:E; [lia|]. apply IH; lia.
Qed.

(** C10. Whatever the caller passes to [learn_language] or to
    [run_vl_on_languages], every test of the loop is [converged] with
    threshold 0.02: a learner converged at 0.02 is returned at once with
    count 0; a learner that is not draws at least one sentence; a run that
    returns ends with a learner converged at 0.02 unless the cap stopped it;
    the runs that return are exactly the runs of the loop that tests 0.02
    before every sentence; and every row yielded comes from a trial whose
    learner went through such a run. *)
Theorem learn_language_threshold (fuel : nat) (lang : list Z) (cap : Z)
    (st : State) :
  (converged (learner st) 0.02 = true →
   learn_language (S fuel) lang cap st = (Ok 0%Z, st)) ∧
  (∀ k st',
     learn_language fuel lang cap st = (Ok k, st') →
     (converged (learner st) 0.02 = false →
      (1 <= sentences_drawn st st')%Z) ∧
     (converged (learner st') 0.02 = true ∨ (cap <= k)%Z)) ∧
  (∀ c grammar_ids num_learners d,
     Forall
       (fun row =>
          converged_loop (r_weights row) 0.02 = true ∨
          (cap <= r_sentences_consumed row)%Z)
       (run_vl_on_languages fuel c grammar_ids num_learners cap d st).1.1) ∧
  (∀ k st',
     learn_language fuel lang cap st = (Ok k, st') →
     loop_run fuel 0.02 lang cap 0 st k st') ∧
  (∀ k st',
     loop_run fuel 0.02 lang cap 0 st k st' →
     0 < fuel → (cap < Z.of_nat fuel)%Z →
     learn_language fuel lang cap st = (Ok k, st')) ∧
  (∀ c grammar_ids num_learners d,
     ∃ trials : chain,
       (run_vl_on_languages fuel c grammar_ids num_learners cap d st).1.1
         = rows_of trials ∧
       linked st trials ∧
       Forall
         (fun x =>
            let row := x.1.2 in
            ∃ sentences start stA stB,
              language d !! r_grammar row = Some sentences ∧
              trial_start c d x.1.1 = (Ok start, stA) ∧
              loop_run fuel 0.02 (elements sentences) cap 0 stA
                (r_sentences_consumed row) stB ∧
              r_weights row = weights (learner stB))
         trials).
Proof.
  split; [|split; [|split; [|split; [|split]]]].
  - intros Hconv. unfold learn_language. by apply learn_loop_converged.
  - intros k st' Hrun. unfold learn_language in Hrun.
    apply learn_loop_Ok in Hrun as (_ & Hdrawn & Hexit).
    split; [exact Hdrawn|].
    destruct Hexit as [(Hconv & _)|(-> & _)]; [by left|right; lia].
  - intros c grammar_ids num_learners d.
    apply run_vl_on_languages_Forall.
    intros g lang' t st0 row st' Htrial.
    by apply run_trial_Ok in Htrial as (_ & _ & _ & Hexit & _).
  - intros k st' Hrun. unfold learn_language in Hrun.
    by apply learn_loop_run in Hrun.
  - intros k st' Hrun Hfuel Hcap. unfold learn_language.
    apply (loop_run_learn _ _ _ _ _ _ _ _ Hrun); lia.
  - intros c grammar_ids num_learners d.
    destruct (run_vl_on_languages_chain fuel c grammar_ids num_learners
                cap d st) as (trials & Hrows & Hlinked & Hall).
    exists trials. split; [exact Hrows|]. split; [exact Hlinked|].
    eapply Forall_impl; [exact Hall|].
    intros [[st0 row] st'] (sentences & Hlang & Htrial). cbn [fst snd] in *.
    apply run_trial_steps in Htrial
      as (start & stA & stB & end_ & stC & H1 & H2 & H3 & H4 & H5 & _).
    exists sentences, start, stA, stB.
    split; [done|]. split; [done|]. split; [|done].
    unfold learn_language in H2. by apply learn_loop_run in H2.
Qed.

Lemma learn_language_threshold_witness :
  let st := sample_state RewardOnlyLearner domain13 high_draws in
  converged (learner st) 0.02 = false ∧
  loop_run 4 0.02 [1%Z] 2 0 st 2 (learn_language 4 [1%Z] 2 st).2 ∧
  (1 <= sentences_drawn st (learn_language 4 [1%Z] 2 st).2)%Z.
Proof.
  split; [reflexivity|].
  destruct (learn_language_threshold 4 [1%Z] 2
              (sample_state RewardOnlyLearner domain13 high_draws))
    as (_ & Hexit & _ & Hrun & _).
  split.
  - apply Hrun. apply run_result. vm_compute. reflexivity.
  - apply (Hexit 2%Z).
    + apply run_result. vm_compute. reflexivity.
    + reflexivity.
Defined.

(** ** The sampler and the codec *)

Lemma coin_flips_length draws (ws : list Q) :
  ∀ k, length (coin_flips draws k ws) = length ws.
Proof. induction ws as [|w rest IH]; intros k; simpl; [done|]. by rewrite IH. Qed.

Lemma toggled_clear_bit (p m : Z) :
  (0 <= p)%Z → toggled p (m * 2 ^ (p + 1)) = (m * 2 ^ (p + 1) + 2 ^ p)%Z.
Proof.
  intros Hp. unfold toggled. rewrite Z.shiftl_1_l.
  symmetry. apply Z.add_nocarry_lxor.
  apply Z.bits_inj'. intros n Hn.
  rewrite Z.land_spec, Z.bits_0, Z.pow2_bits_eqb by lia.
  destruct (Z.eqb_spec p n) as [<-|Hne].
  - rewrite Z.mul_pow2_bits_low by lia. reflexivity.
  - apply andb_false_r.
Qed.

Lemma flip_params_value (ws : list Q) :
  ∀ (start : nat) (m : Z) (st : State),
    start + length ws ≤ 13 →
    (flip_params (enumerate_from start ws)
       (m * 2 ^ (13 - Z.of_nat start)) st).1 =
    Ok (m * 2 ^ (13 - Z.of_nat start) +
        big_endian (coin_flips (floats (world st)) (n_random (world st)) ws) *
        2 ^ (13 - Z.of_nat start - Z.of_nat (length ws)))%Z.
Proof.
  induction ws as [|w rest IH]; intros start m st Hlen; simpl in *.
  - f_equal. lia.
  - unfold mbind, M_bind, bind, random. simpl.
    set (flip := Qltb _ w).
    set (st1 := {| learner := _; world := _ |}).
    replace (13 - Z.of_nat start)%Z with (12 - Z.of_nat start + 1)%Z by lia.
    rewrite toggled_clear_bit by lia.
    replace (if flip then _ else _)
      with ((2 * m + (if flip then 1 else 0)) * 2 ^ (13 - Z.of_nat (S start)))%Z.
    2:{ replace (13 - Z.of_nat (S start))%Z with (12 - Z.of_nat start)%Z by lia.
        rewrite Z.pow_add_r by lia. destruct flip; ring. }
    specialize (IH (S start) (2 * m + (if flip then 1 else 0))%Z st1).
    destruct (flip_params _ _ st1) as [r st2]. simpl in *.
    rewrite IH by lia. f_equal.
    replace (12 - Z.of_nat start + 1 - Z.of_nat (S (length rest)))%Z
      with (13 - Z.of_nat (S start) - Z.of_nat (length rest))%Z by lia.
    replace (12 - Z.of_nat start + 1)%Z
      with (1 + (13 - Z.of_nat (S start)))%Z by lia.
    rewrite (Z.pow_add_r 2 1) by lia.
    replace (13 - Z.of_nat (S start))%Z
      with (Z.of_nat (length rest) +
            (13 - Z.of_nat (S start) - Z.of_nat (length rest)))%Z at 1 3 by lia.
    rewrite Z.pow_add_r by lia.
    rewrite coin_flips_length. change (2 ^ 1)%Z with 2%Z.
    destruct flip; ring.
Qed.

(** With at most thirteen weights, the candidate of the sampler is the codec's
    encoding of the coin flips shifted left by [13 - P] bits: parameter [i]
    sits at bit [12 - i]. *)
Lemma sampler_candidate (st : State) :
  length (weights (learner st)) ≤ 13 →
  (flip_params (enumerate (weights (learner st))) 0%Z st).1 =
  Ok (param_list_to_grammar
        (coin_flips (floats (world st)) (n_random (world st))
           (weights (learner st))) *
      2 ^ (13 - Z.of_nat (length (weights (learner st)))))%Z.
Proof.
  intros Hlen. unfold enumerate.
  pose proof (flip_params_value (weights (learner st)) 0 0%Z st) as H.
  rewrite Z.mul_0_l in H. rewrite H by lia.
  rewrite param_list_to_grammar_big_endian.
  change (Z.of_nat 0) with 0%Z. by rewrite Z.sub_0_r, Z.add_0_l.
Qed.

(** With thirteen weights the sampler agrees with the codec. *)
Lemma sampler_candidate_13 (st : State) :
  length (weights (learner st)) = 13 →
  (flip_params (enumerate (weights (learner st))) 0%Z st).1 =
  Ok (param_list_to_grammar
        (coin_flips (floats (world st)) (n_random (world st))
           (weights (learner st)))).
Proof.
  intros Hlen. rewrite sampler_candidate by lia. rewrite Hlen.
  f_equal. simpl. lia.
Qed.

(** With thirteen parameters, the bit that the strategies read for parameter
    [i] is the bit of the codec. *)
Lemma strategies_read_codec_bit_13 (values : list Z) (i : nat) (v : Z) :
  Forall is_bit values →
  length values = 13 →
  values !! i = Some v →
  get_param_value (12 - Z.of_nat i) (param_list_to_grammar values) = v.
Proof.
  intros Hbits Hlen Hi.
  pose proof (big_endian_bit values Hbits i v Hi) as H.
  rewrite Hlen in H. by rewrite param_list_to_grammar_big_endian.
Qed.

Lemma sampler_stuck (fuel : nat) :
  ∀ used,
    (choose_grammar fuel
       {| learner := new_learner RewardOnlyLearner domain3;
          world := sample_world_at low_draws used |}).1 = OutOfFuel.
Proof.
  induction fuel as [|fuel IH]; intros used; [reflexivity|].
  specialize (IH (S (S (S used)))).
  cbn -[choose_grammar] in IH.
  cbn. exact IH.
Qed.

(** C3 (fails on the code). In a domain of three parameters the codec puts
    parameters 0, 1, 2 at bits 2, 1, 0: the grammar with every parameter set
    is 7, a legal grammar. The sampler, when its three coin flips succeed,
    builds 7168, with bits 12, 11 and 10 set, which is not legal, and so never
    returns. Every strategy, asked to reward grammar 7 (for
    [PunishOnlyLearner], to punish grammar 0), reads bits 12, 11 and 10, finds
    them 0, lowers the three weights, and raises [IndexError] at index 3. *)
Theorem sampler_and_strategies_use_thirteen_bit_layout :
  let self c := new_learner c domain3 in
  let st := sample_state RewardOnlyLearner domain3 low_draws in
  weights (learner st) = replicate (num_params domain3) 0.5%Q ∧
  param_list_to_grammar [1; 1; 1]%Z = 7%Z ∧
  legal_grammar domain3 7 = true ∧
  coin_flips low_draws 0 (weights (learner st)) = [1; 1; 1]%Z ∧
  (flip_params (enumerate (weights (learner st))) 0%Z st).1 = Ok 7168%Z ∧
  7168%Z = (2 ^ 12 + 2 ^ 11 + 2 ^ 10)%Z ∧
  (∀ fuel, (choose_grammar fuel st).1 = OutOfFuel) ∧
  reward_weights (self RewardOnlyLearner) 7 1 =
    (replicate 3 (nudge 0.0005 0 0.5), Some IndexError) ∧
  reward_weights (self RewardOnlyRelevantLearner) 7 1 =
    (replicate 3 (nudge 0.0005 0 0.5), Some IndexError) ∧
  reward_weights (self SkepticalRewardOnlyLearner) 7 1 =
    (replicate 3 (nudge 0.0005 0 0.5), Some IndexError) ∧
  punish_weights (self PunishOnlyLearner) 0 1 =
    (replicate 3 (nudge 0.0005 0 0.5), Some IndexError) ∧
  (nudge 0.0005 0 0.5 < 0.5)%Q.
Proof.
  cbv zeta.
  split; [reflexivity|]. split; [reflexivity|]. split; [reflexivity|].
  split; [reflexivity|]. split; [vm_compute; reflexivity|].
  split; [reflexivity|]. split; [intros fuel; apply sampler_stuck|].
  split; [vm_compute; reflexivity|]. split; [vm_compute; reflexivity|].
  split; [vm_compute; reflexivity|]. split; [vm_compute; reflexivity|].
  unfold nudge. simpl. lra.
Qed.

(** * Further properties *)


(** ** Convergence and the best guess *)

Lemma Qfloor_unit (w : Q) :
  (0 <= w)%Q → (w <= 1)%Q →
  (Qfloor w = 0%Z ∧ (w < 1)%Q) ∨ (Qfloor w = 1%Z ∧ (w == 1)%Q).
Proof.
  intros H0 H1.
  pose proof (Qfloor_le w) as Hle. pose proof (Qlt_floor w) as Hlt.
  assert (Hlo : (0 <= Qfloor w)%Z).
  { assert (H : (inject_Z 0 < inject_Z (Qfloor w + 1))%Q).
    { eapply Qle_lt_trans; [exact H0|exact Hlt]. }
    rewrite <- Zlt_Qlt in H. lia. }
  assert (Hhi : (Qfloor w <= 1)%Z).
  { rewrite Zle_Qle. eapply Qle_trans; [exact Hle|exact H1]. }
  assert (Hcase : Qfloor w = 0%Z ∨ Qfloor w = 1%Z) by lia.
  destruct Hcase as [E|E]; rewrite E in *.
  - left. split; [reflexivity|]. exact Hlt.
  - right. split; [reflexivity|]. apply Qle_antisym; [exact H1|exact Hle].
Qed.

Lemma py_round_unit (w : Q) : in_unit w → py_round w = decided_bit w.
Proof.
  intros [H0 H1]. unfold py_round, decided_bit.
  destruct (Qfloor_unit w H0 H1) as [[-> Hw]|[-> Hw]].
  - destruct (Qltb (w - inject_Z 0) 0.5) eqn:E1.
    + apply Qltb_lt in E1. unfold inject_Z in E1.
      destruct (Qltb 0.5 w) eqn:E2; [|reflexivity].
      apply Qltb_lt in E2. lra.
    + apply Qltb_ge in E1. unfold inject_Z in E1.
      destruct (Qltb 0.5 (w - inject_Z 0)) eqn:E3.
      * apply Qltb_lt in E3. unfold inject_Z in E3.
        destruct (Qltb 0.5 w) eqn:E2; [reflexivity|].
        apply Qltb_ge in E2. lra.
      * apply Qltb_ge in E3. unfold inject_Z in E3. simpl.
        destruct (Qltb 0.5 w) eqn:E2; [|reflexivity].
        apply Qltb_lt in E2. lra.
  - destruct (Qltb (w - inject_Z 1) 0.5) eqn:E1.
    + destruct (Qltb 0.5 w) eqn:E2; [reflexivity|].
      apply Qltb_ge in E2. lra.
    + apply Qltb_ge in E1. unfold inject_Z in E1. lra.
Qed.

Lemma converged_above_half (self : Learner) (threshold : Q) :
  converged self threshold = true →
  Forall (fun w => (0.5 < w)%Q) (weights self).
Proof.
  intros H. apply converged_true in H.
  eapply Forall_impl; [exact H|]. intros w [Hhigh Hlow]. simpl in *. lra.
Qed.

(** X1. [converged] returns false, whatever the threshold, as soon as one
    weight is at most one half. *)
Theorem converged_false_with_low_weight (self : Learner) (threshold w : Q) :
  w ∈ weights self →
  (w <= 0.5)%Q →
  converged self threshold = false.
Proof.
  intros Hin Hlow.
  destruct (converged self threshold) eqn:Hconv; [|reflexivity].
  apply converged_above_half in Hconv.
  rewrite Forall_forall in Hconv. specialize (Hconv w Hin). simpl in Hconv. lra.
Qed.

Lemma converged_false_with_low_weight_witness :
  converged (new_learner RewardOnlyLearner domain13) 0.7 = false.
Proof.
  apply (converged_false_with_low_weight
           (new_learner RewardOnlyLearner domain13) 0.7 0.5).
  - simpl. apply list_elem_of_here.
  - vm_compute. discriminate.
Defined.

(** X2. A learner just built by [__init__] on a domain with at least one
    parameter is not converged, for any threshold and any learning rate. *)
Theorem fresh_learner_never_converged (c : LearnerClass) (d : Domain)
    (rate threshold : Q) :
  0 < num_params d →
  converged (init c d rate) threshold = false.
Proof.
  intros Hp. unfold converged, init. simpl.
  destruct (num_params d) as [|p]; [lia|]. simpl.
  destruct (Qltb (1 - 0.5) threshold) eqn:E1; simpl; [|reflexivity].
  destruct (Qltb 0.5 threshold) eqn:E2; [reflexivity|].
  apply Qltb_lt in E1. apply Qltb_ge in E2. lra.
Qed.

Lemma fresh_learner_never_converged_witness :
  converged (init PunishOnlyLearner domain3 0.1) 0.9 = false.
Proof.
  apply (fresh_learner_never_converged PunishOnlyLearner domain3 0.1 0.9).
  simpl. lia.
Defined.

Lemma big_endian_ones (n : nat) :
  big_endian (replicate n 1%Z) = (2 ^ Z.of_nat n - 1)%Z.
Proof.
  induction n as [|n IH]; [reflexivity|].
  simpl replicate. simpl big_endian. rewrite IH, length_replicate.
  rewrite Nat2Z.inj_succ, Z.pow_succ_r by lia. lia.
Qed.

(** X3. When the weights lie in [0,1] and [converged] returns true, for any
    threshold, [best_guess] is the grammar with every parameter set,
    [2 ** P - 1]. *)
Theorem converged_best_guess_all_ones (self : Learner) (threshold : Q) :
  Forall in_unit (weights self) →
  converged self threshold = true →
  best_guess self = (2 ^ Z.of_nat (length (weights self)) - 1)%Z.
Proof.
  intros Hunit Hconv. apply converged_above_half in Hconv.
  unfold best_guess. rewrite param_list_to_grammar_big_endian.
  rewrite <- big_endian_ones. f_equal.
  induction (weights self) as [|w ws IH]; [reflexivity|].
  inversion Hunit; subst. inversion Hconv; subst.
  rewrite fmap_cons. simpl length. simpl replicate.
  rewrite IH by assumption. f_equal.
  rewrite py_round_unit by assumption. unfold decided_bit.
  destruct (Qltb 0.5 w) eqn:E; [reflexivity|]. apply Qltb_ge in E. lra.
Qed.

Lemma converged_best_guess_all_ones_witness :
  best_guess (set_weights (new_learner RewardOnlyLearner domain3)
                [0.99; 0.995; 1]%Q) = 7%Z.
Proof.
  apply (converged_best_guess_all_ones
           (set_weights (new_learner RewardOnlyLearner domain3)
              [0.99; 0.995; 1]%Q) 0.02).
  - simpl. repeat (constructor; [unfold in_unit; split; lra|]). constructor.
  - reflexivity.
Defined.

Lemma decided_bit_is_bit (w : Q) : is_bit (decided_bit w).
Proof. unfold decided_bit, is_bit. destruct (Qltb 0.5 w); auto. Qed.

Lemma py_round_fmap_unit (ws : list Q) :
  Forall in_unit ws → py_round <$> ws = decided_bit <$> ws.
Proof.
  induction 1 as [|w ws Hw _ IH]; [reflexivity|].
  rewrite !fmap_cons, IH. f_equal. by apply py_round_unit.
Qed.

(** X4. With weights in [0,1], [best_guess] is a P-bit grammar and its bit at
    position P-1-i is 1 exactly when weight [i] is above one half (a weight of
    exactly 0.5 rounds to 0). *)
Theorem best_guess_bits (self : Learner) (i : nat) (w : Q) :
  Forall in_unit (weights self) →
  weights self !! i = Some w →
  (0 <= best_guess self < 2 ^ Z.of_nat (length (weights self)))%Z ∧
  get_param_value (Z.of_nat (length (weights self)) - 1 - Z.of_nat i)
    (best_guess self) = decided_bit w.
Proof.
  intros Hunit Hw. unfold best_guess.
  rewrite py_round_fmap_unit by assumption.
  rewrite param_list_to_grammar_big_endian.
  assert (Hbits : Forall is_bit (decided_bit <$> weights self)).
  { apply Forall_fmap. apply Forall_true. intros x. apply decided_bit_is_bit. }
  split.
  - pose proof (big_endian_range _ Hbits) as H.
    by rewrite length_fmap in H.
  - pose proof (big_endian_bit _ Hbits i (decided_bit w)) as H.
    rewrite length_fmap in H. apply H.
    by rewrite list_lookup_fmap, Hw.
Qed.

Lemma best_guess_bits_witness :
  get_param_value (3 - 1 - 1)
    (best_guess (set_weights (new_learner RewardOnlyLearner domain3)
                   [0.2; 0.7; 0.5]%Q)) = 1%Z.
Proof.
  apply (best_guess_bits
           (set_weights (new_learner RewardOnlyLearner domain3)
              [0.2; 0.7; 0.5]%Q) 1 0.7).
  - simpl. repeat (constructor; [unfold in_unit; split; lra|]). constructor.
  - reflexivity.
Defined.

Lemma big_endian_app (xs ys : list Z) :
  big_endian (xs ++ ys) =
  (big_endian xs * 2 ^ Z.of_nat (length ys) + big_endian ys)%Z.
Proof.
  induction xs as [|x xs IH]; simpl; [lia|].
  rewrite IH, length_app, Nat2Z.inj_add, Z.pow_add_r by lia. ring.
Qed.

(** X5. Encoding a concatenation: [param_list_to_grammar (xs ++ ys)] is the
    encoding of [xs] shifted left by [len(ys)] bits plus the encoding of
    [ys], for all lists of integers. *)
Theorem param_list_to_grammar_app (xs ys : list Z) :
  param_list_to_grammar (xs ++ ys) =
  (param_list_to_grammar xs * 2 ^ Z.of_nat (length ys) +
   param_list_to_grammar ys)%Z.
Proof.
  rewrite !param_list_to_grammar_big_endian. apply big_endian_app.
Qed.

(** X6. Two sequences of bits of the same length with the same encoding are
    equal. *)
Theorem param_list_to_grammar_inj (xs ys : list Z) :
  Forall is_bit xs → Forall is_bit ys →
  length xs = length ys →
  param_list_to_grammar xs = param_list_to_grammar ys →
  xs = ys.
Proof.
  intros Hxs Hys Hlen Heq. rewrite !param_list_to_grammar_big_endian in Heq.
  apply list_eq. intros i.
  destruct (xs !! i) as [x|] eqn:Hx.
  - destruct (ys !! i) as [y|] eqn:Hy.
    + f_equal.
      rewrite <- (big_endian_bit xs Hxs i x Hx).
      rewrite <- (big_endian_bit ys Hys i y Hy).
      by rewrite Heq, Hlen.
    + apply lookup_lt_Some in Hx. apply lookup_ge_None in Hy. lia.
  - destruct (ys !! i) as [y|] eqn:Hy; [|reflexivity].
    apply lookup_lt_Some in Hy. apply lookup_ge_None in Hx. lia.
Qed.

Lemma param_list_to_grammar_inj_witness : [1; 0; 1]%Z = [1; 0; 1]%Z.
Proof.
  apply (param_list_to_grammar_inj [1; 0; 1]%Z [1; 0; 1]%Z).
  - repeat (constructor; [unfold is_bit; lia|]). constructor.
  - repeat (constructor; [unfold is_bit; lia|]). constructor.
  - reflexivity.
  - reflexivity.
Defined.

(** X7. The encoding of a sequence of P bits lies in [0, 2 ** P). *)
Theorem param_list_to_grammar_range (values : list Z) :
  Forall is_bit values →
  (0 <= param_list_to_grammar values < 2 ^ Z.of_nat (length values))%Z.
Proof.
  intros H. rewrite param_list_to_grammar_big_endian. by apply big_endian_range.
Qed.

Lemma param_list_to_grammar_range_witness :
  (0 <= param_list_to_grammar [1; 1; 0]%Z < 2 ^ Z.of_nat 3)%Z.
Proof.
  apply (param_list_to_grammar_range [1; 1; 0]%Z).
  repeat (constructor; [unfold is_bit; lia|]). constructor.
Defined.

(** X8. With weights in [0,1], [weights_to_params] is a string of one
    character per weight, whose character [i] is ['1'] when weight [i] is
    above one half and ['0'] otherwise. *)
Theorem weights_to_params_digits (ws : list Q) (i : nat) :
  Forall in_unit ws →
  String.length (weights_to_params ws) = length ws ∧
  String.get i (weights_to_params ws) = digit <$> ws !! i.
Proof.
  intros Hunit. revert i.
  induction Hunit as [|w ws Hw _ IH]; intros i; [done|].
  unfold weights_to_params in *. simpl foldr.
  rewrite py_round_unit by assumption.
  assert (E : pretty (decided_bit w) = String (digit w) "").
  { unfold decided_bit, digit. by destruct (Qltb 0.5 w). }
  rewrite E. simpl. split.
  - f_equal. apply (IH 0).
  - destruct i as [|i]; [done|]. simpl. apply IH.
Qed.

Lemma weights_to_params_digits_witness :
  String.length (weights_to_params [0.2; 0.7; 0.5]%Q) = 3 ∧
  String.get 1 (weights_to_params [0.2; 0.7; 0.5]%Q) = Some "1"%char.
Proof.
  apply (weights_to_params_digits [0.2; 0.7; 0.5]%Q 1).
  repeat (constructor; [unfold in_unit; split; lra|]). constructor.
Defined.

(** ** The sampler, once more *)

Lemma advance_0 (st : State) : advance st 0 = st.
Proof. by destruct st as [l []]. Qed.

Lemma advance_advance (st : State) (a b : nat) :
  advance (advance st a) b = advance st (a + b).
Proof. unfold advance. simpl. do 2 f_equal. lia. Qed.

Lemma flip_params_state (items : list (nat * Q)) :
  ∀ grammar st,
    ∃ g, flip_params items grammar st = (Ok g, advance st (length items)).
Proof.
  induction items as [|[index w] rest IH]; intros grammar st; simpl.
  - exists grammar. by rewrite advance_0.
  - unfold mbind, M_bind, bind, random.
    match goal with |- context [flip_params rest ?g ?s] =>
      destruct (IH g s) as [g' ->] end.
    exists g'. f_equal. unfold advance. simpl. do 2 f_equal. lia.
Qed.

Lemma enumerate_from_length {A} (xs : list A) :
  ∀ start, length (enumerate_from start xs) = length xs.
Proof. induction xs as [|x xs IH]; intros start; simpl; [done|]. by rewrite IH. Qed.

(** A successful call of the sampler after [k] candidates. *)
Lemma choose_grammar_run (fuel : nat) :
  ∀ st g st',
    choose_grammar fuel st = (Ok g, st') →
    legal_grammar (domain (learner st)) g = true ∧
    ∃ k,
      k < fuel ∧
      st' = advance st (S k * length (weights (learner st))) ∧
      (flip_params (enumerate (weights (learner st))) 0%Z
         (advance st (k * length (weights (learner st))))).1 = Ok g.
Proof.
  induction fuel as [|fuel IH]; intros st g st'; simpl; [discriminate|].
  unfold mbind, M_bind, bind, get_self, mret, M_ret, ret.
  destruct (flip_params_state (enumerate (weights (learner st))) 0%Z st)
    as [c Hc].
  rewrite Hc. unfold enumerate in *. rewrite enumerate_from_length in *.
  destruct (legal_grammar (domain (learner st)) c) eqn:Hlegal.
  - intros [= <- <-]. split; [done|]. exists 0. split; [lia|].
    rewrite Nat.mul_0_l, Nat.add_0_r, advance_0. by rewrite Hc.
  - intros H. apply IH in H as (Hl & k & Hk & -> & Hflip). simpl in *.
    split; [done|]. exists (S k). split; [lia|].
    rewrite advance_advance in *. split.
    + f_equal; lia.
    + exact Hflip.
Qed.

Lemma coin_flips_bits (draws : nat → Q) (ws : list Q) :
  ∀ k, Forall is_bit (coin_flips draws k ws).
Proof.
  induction ws as [|w ws IH]; intros k; simpl; constructor; [|apply IH].
  unfold is_bit. destruct (Qltb _ w); auto.
Qed.

(** X9. A grammar returned by [choose_grammar] is legal in the domain of the
    learner; the call leaves the learner, the sentence draws and the clock
    untouched and makes [k * P] calls to [random.random()], for some number
    [k >= 1] of candidates. *)
Theorem choose_grammar_effect (fuel : nat) (st st' : State) (g : Z) :
  choose_grammar fuel st = (Ok g, st') →
  legal_grammar (domain (learner st)) g = true ∧
  learner st' = learner st ∧
  n_choice (world st') = n_choice (world st) ∧
  n_now (world st') = n_now (world st) ∧
  ∃ k, 1 ≤ k ≤ fuel ∧
       n_random (world st') =
       k * length (weights (learner st)) + n_random (world st).
Proof.
  intros H. apply choose_grammar_run in H as (Hlegal & k & Hk & -> & _).
  split; [done|]. split; [done|]. split; [done|]. split; [done|].
  exists (S k). split; [lia|]. reflexivity.
Qed.

Lemma choose_grammar_effect_witness :
  let st := sample_state RewardOnlyLearner domain13 high_draws in
  legal_grammar domain13 0 = true ∧
  learner (choose_grammar 1 st).2 = learner st ∧
  n_choice (world (choose_grammar 1 st).2) = 0 ∧
  n_now (world (choose_grammar 1 st).2) = 0 ∧
  ∃ k, 1 ≤ k ≤ 1 ∧ n_random (world (choose_grammar 1 st).2) = k * 13 + 0.
Proof.
  apply (choose_grammar_effect 1
           (sample_state RewardOnlyLearner domain13 high_draws) _ 0%Z).
  apply run_result. reflexivity.
Defined.

(** X10. With at most thirteen weights, every grammar returned by
    [choose_grammar] is the encoding of P coin flips shifted left by
    [13 - P] bits, hence a value of [0, 2 ** 13). *)
Theorem choose_grammar_thirteen_bits (fuel : nat) (st st' : State) (g : Z) :
  length (weights (learner st)) ≤ 13 →
  choose_grammar fuel st = (Ok g, st') →
  (0 <= g < 2 ^ 13)%Z ∧
  ∃ flips,
    length flips = length (weights (learner st)) ∧ Forall is_bit flips ∧
    g = (param_list_to_grammar flips *
         2 ^ (13 - Z.of_nat (length (weights (learner st)))))%Z.
Proof.
  intros Hlen H. apply choose_grammar_run in H as (_ & k & _ & _ & Hflip).
  set (st1 := advance st (k * length (weights (learner st)))) in *.
  pose proof (sampler_candidate st1 Hlen) as Hc.
  change (weights (learner st1)) with (weights (learner st)) in Hc.
  rewrite Hflip in Hc. injection Hc as ->.
  set (flips := coin_flips _ _ _).
  assert (Hl : length flips = length (weights (learner st)))
    by apply coin_flips_length.
  assert (Hbits : Forall is_bit flips) by apply coin_flips_bits.
  split; [|by exists flips].
  pose proof (param_list_to_grammar_big_endian flips) as E.
  pose proof (big_endian_range flips Hbits) as Hr. rewrite <- E, Hl in Hr.
  set (p := Z.of_nat (length (weights (learner st)))) in *.
  assert (Hp : (0 <= p <= 13)%Z) by lia.
  assert (E13 : (2 ^ 13 = 2 ^ p * 2 ^ (13 - p))%Z).
  { rewrite <- Z.pow_add_r by lia. f_equal. lia. }
  assert (0 < 2 ^ (13 - p))%Z by (apply Z.pow_pos_nonneg; lia).
  rewrite E13. nia.
Qed.

Lemma choose_grammar_thirteen_bits_witness :
  (0 <= 0 < 2 ^ 13)%Z ∧
  ∃ flips,
    length flips = 3 ∧ Forall is_bit flips ∧
    0%Z = (param_list_to_grammar flips * 2 ^ (13 - Z.of_nat 3))%Z.
Proof.
  apply (choose_grammar_thirteen_bits 1
           (sample_state RewardOnlyLearner domain3 high_draws)
           (choose_grammar 1
              (sample_state RewardOnlyLearner domain3 high_draws)).2 0%Z).
  - simpl. lia.
  - apply run_result. reflexivity.
Defined.

Lemma decided_in_unit (w : Q) : decided w → in_unit w.
Proof. unfold decided, in_unit. intros [H|H]; rewrite H; split; lra. Qed.

Lemma coin_flips_decided (draws : nat → Q) (ws : list Q) :
  (∀ k, (0 <= draws k)%Q ∧ (draws k < 1)%Q) →
  Forall decided ws →
  ∀ k, coin_flips draws k ws = decided_bit <$> ws.
Proof.
  intros Hdraws. induction 1 as [|w ws Hw _ IH]; intros k; [reflexivity|].
  rewrite fmap_cons. simpl coin_flips. rewrite IH. f_equal. unfold decided_bit.
  destruct (Hdraws k) as [H0 H1].
  destruct (Qltb (draws k) w) eqn:E1; destruct (Qltb 0.5 w) eqn:E2;
    try reflexivity.
  - apply Qltb_lt in E1. apply Qltb_ge in E2. destruct Hw as [Hw|Hw]; lra.
  - apply Qltb_ge in E1. apply Qltb_lt in E2. destruct Hw as [Hw|Hw]; lra.
Qed.

Lemma decided_candidate (st : State) (n : nat) :
  unit_draws (world st) →
  length (weights (learner st)) = 13 →
  Forall decided (weights (learner st)) →
  flip_params (enumerate (weights (learner st))) 0%Z (advance st n) =
  (Ok (best_guess (learner st)), advance st (n + 13)).
Proof.
  intros Hdraws Hlen Hdec.
  destruct (flip_params_state (enumerate (weights (learner st))) 0%Z
              (advance st n)) as [g Hg].
  pose proof (sampler_candidate_13 (advance st n) Hlen) as Hc.
  change (weights (learner (advance st n))) with (weights (learner st)) in Hc.
  rewrite Hg in Hc. simpl in Hc. injection Hc as ->.
  rewrite Hg. unfold enumerate. rewrite enumerate_from_length, Hlen.
  rewrite advance_advance. f_equal. f_equal.
  rewrite coin_flips_decided by assumption.
  unfold best_guess. rewrite py_round_fmap_unit; [reflexivity|].
  eapply Forall_impl; [exact Hdec|]. apply decided_in_unit.
Qed.

(** X11. With thirteen weights that are each 0 or 1 and draws in [0,1), the
    sampler is deterministic: if [best_guess()] is a legal grammar,
    [choose_grammar] returns it after thirteen draws; if it is not,
    [choose_grammar] never returns. *)
Theorem sampler_with_decided_weights (st : State) :
  unit_draws (world st) →
  length (weights (learner st)) = 13 →
  Forall decided (weights (learner st)) →
  (legal_grammar (domain (learner st)) (best_guess (learner st)) = true →
   ∀ fuel, choose_grammar (S fuel) st =
           (Ok (best_guess (learner st)), advance st 13)) ∧
  (legal_grammar (domain (learner st)) (best_guess (learner st)) = false →
   ∀ fuel, (choose_grammar fuel st).1 = OutOfFuel).
Proof.
  intros Hdraws Hlen Hdec. split; intros Hlegal fuel.
  - simpl. unfold mbind, M_bind, bind, get_self, mret, M_ret, ret.
    pose proof (decided_candidate st 0 Hdraws Hlen Hdec) as Hc.
    rewrite advance_0 in Hc. rewrite Hc. simpl. by rewrite Hlegal.
  - rewrite <- (advance_0 st). generalize 0.
    induction fuel as [|fuel IH]; intros n; [reflexivity|].
    simpl. unfold mbind, M_bind, bind, get_self, mret, M_ret, ret. simpl.
    rewrite (decided_candidate st n Hdraws Hlen Hdec). rewrite Hlegal.
    apply IH.
Qed.

Lemma sampler_with_decided_weights_witness :
  let st :=
    {| learner := set_weights (new_learner RewardOnlyLearner domain13)
                    [1; 0; 0; 0; 0; 0; 0; 0; 0; 0; 0; 0; 1]%Q;
       world := sample_world high_draws |} in
  choose_grammar 1 st = (Ok (best_guess (learner st)), advance st 13).
Proof.
  intros st.
  apply (sampler_with_decided_weights st).
  - intros k. simpl. unfold high_draws. split; lra.
  - reflexivity.
  - simpl.
    repeat (constructor;
            [unfold decided; first [left; reflexivity|right; reflexivity]|]).
    constructor.
  - reflexivity.
Defined.

(** X12. With draws in [0,1), [weighted_coin_flip] makes one call to
    [random.random()] and returns 0 or 1: 1 exactly when the draw is below the
    weight, always 0 for a weight at most 0 and always 1 for a weight at
    least 1. *)
Theorem weighted_coin_flip_edges (weight : Q) (st : State) :
  unit_draws (world st) →
  ∃ b,
    weighted_coin_flip weight st = (Ok b, advance st 1) ∧
    is_bit b ∧
    (b = 1%Z ↔ (floats (world st) (n_random (world st)) < weight)%Q) ∧
    ((weight <= 0)%Q → b = 0%Z) ∧
    ((1 <= weight)%Q → b = 1%Z).
Proof.
  intros Hdraws. destruct (Hdraws (n_random (world st))) as [H0 H1].
  unfold weighted_coin_flip, mbind, M_bind, bind, random, mret, M_ret, ret.
  eexists. split; [reflexivity|].
  destruct (Qltb _ weight) eqn:E.
  - apply Qltb_lt in E. split; [by right|]. split; [done|].
    split; [intros; lra|done].
  - apply Qltb_ge in E. split; [by left|]. split.
    + split; [done|]. intros. lra.
    + split; [done|]. intros. lra.
Qed.

Lemma weighted_coin_flip_edges_witness :
  ∃ b,
    weighted_coin_flip 1
      (sample_state RewardOnlyLearner domain13 high_draws) =
    (Ok b, advance (sample_state RewardOnlyLearner domain13 high_draws) 1) ∧
    b = 1%Z.
Proof.
  destruct (weighted_coin_flip_edges 1
              (sample_state RewardOnlyLearner domain13 high_draws))
    as (b & Hrun & _ & _ & _ & Hone).
  - intros k. simpl. unfold high_draws. split; lra.
  - exists b. split; [exact Hrun|]. apply Hone. lra.
Defined.

(** ** The strategies on lists of any length *)

Lemma get_param_value_is_bit (position grammar : Z) :
  (0 <= position)%Z → is_bit (get_param_value position grammar).
Proof.
  intros Hp. rewrite get_param_value_testbit by assumption.
  unfold is_bit. destruct (Z.testbit grammar position); auto.
Qed.

Lemma nudge_direction (rate : Q) (val : Z) (w : Q) :
  in_unit rate → in_unit w →
  (val = 1%Z → (w <= nudge rate val w)%Q ∧ (nudge rate val w <= 1)%Q) ∧
  (val = 0%Z → (0 <= nudge rate val w)%Q ∧ (nudge rate val w <= w)%Q).
Proof.
  intros [Hr0 Hr1] [Hw0 Hw1].
  split; intros ->; unfold nudge; simpl; split; nra.
Qed.

Lemma first_failure_reward_only (rate : Q) (len n : nat) :
  ∀ a, a ≤ len →
    first_failure (reward_only_action rate) len (seq a n) =
    if bool_decide (len < a + n) then Some len else None.
Proof.
  induction n as [|n IH]; intros a Ha; simpl.
  - by rewrite bool_decide_eq_false_2 by lia.
  - unfold fails, reward_only_action. case_bool_decide as Hfail.
    + assert (a = len) as -> by lia. by rewrite bool_decide_eq_true_2 by lia.
    + rewrite IH by lia. repeat case_bool_decide; try done; lia.
Qed.

(** X13. [RewardOnlyLearner.reward] on a weight list of any length: the length
    is kept, [IndexError] is raised exactly when there are fewer than thirteen
    weights, every weight of index below 13 is updated with the bit at
    position [12 - index] (also when the call raises), and the weights from
    index 13 on are unchanged. *)
Theorem reward_only_every_length (self : Learner) (h s : Z) :
  let result := RewardOnlyLearner_reward self h s in
  length result.1 = length (weights self) ∧
  result.2 = (if bool_decide (length (weights self) < 13)
              then Some IndexError else None) ∧
  ∀ i w,
    weights self !! i = Some w →
    result.1 !! i =
    Some (if bool_decide (i < 13)
          then nudge (learning_rate self)
                 (get_param_value (12 - Z.of_nat i) h) w
          else w).
Proof.
  intros result. subst result. rewrite RewardOnlyLearner_reward_perform.
  destruct (for_index _ _ _) as [ws' e] eqn:Hloop.
  pose proof (for_index_perform_exn (reward_only_action (learning_rate self))
                h (seq 0 13) (weights self)) as Hexn.
  rewrite Hloop in Hexn. simpl in Hexn.
  apply for_index_perform in Hloop as (Hlen & He & Hlook).
  rewrite first_failure_reward_only in He, Hlook by lia.
  simpl. split; [done|]. split.
  - change (0 + 13) with 13 in He.
    destruct (decide (length (weights self) < 13)) as [Hshort|Hlong].
    + rewrite (bool_decide_eq_true_2 _ Hshort) in He |- *.
      destruct e as [e|]; [by rewrite (Hexn e)|].
      destruct He as [He _]. by specialize (He eq_refl).
    + rewrite (bool_decide_eq_false_2 _ Hlong) in He |- *. by apply He.
  - intros i w Hw. pose proof (lookup_lt_Some _ _ _ Hw) as Hi.
    rewrite Hlook, Hw. unfold outcome, reward_only_action.
    repeat (case_bool_decide; simpl); try done; lia.
Qed.

(** X14. After [RewardOnlyLearner.reward], with learning rate and weight in
    [0,1], the weight of index [i < 13] has moved toward the bit read for
    [i], without passing it: it lies between the old weight and 1 when the
    bit is 1, between 0 and the old weight when the bit is 0. *)
Theorem reward_only_moves_toward_bit (self : Learner) (h s : Z) (i : nat)
    (w : Q) :
  i < 13 →
  weights self !! i = Some w →
  in_unit (learning_rate self) →
  in_unit w →
  let bit := get_param_value (12 - Z.of_nat i) h in
  ∃ w',
    (RewardOnlyLearner_reward self h s).1 !! i = Some w' ∧
    is_bit bit ∧
    (bit = 1%Z → (w <= w')%Q ∧ (w' <= 1)%Q) ∧
    (bit = 0%Z → (0 <= w')%Q ∧ (w' <= w)%Q).
Proof.
  intros Hi Hw Hrate Hunit bit.
  assert (Hbit : is_bit bit) by (apply get_param_value_is_bit; lia).
  rewrite RewardOnlyLearner_reward_perform.
  destruct (for_index _ _ _) as [ws' e] eqn:Hloop.
  apply for_index_perform in Hloop as (_ & _ & Hlook).
  rewrite first_failure_reward_only in Hlook by lia.
  pose proof (lookup_lt_Some _ _ _ Hw) as Hlt.
  eexists. cbn [fst]. split.
  { rewrite Hlook, Hw. unfold outcome, reward_only_action.
    repeat (case_bool_decide; simpl); try done; lia. }
  fold bit. split; [done|].
  apply nudge_direction; assumption.
Qed.

Lemma reward_only_moves_toward_bit_witness :
  ∃ w',
    (RewardOnlyLearner_reward (new_learner RewardOnlyLearner domain13)
       8191 1).1 !! 4 = Some w' ∧
    (0.5 <= w')%Q ∧ (w' <= 1)%Q.
Proof.
  destruct (reward_only_moves_toward_bit
              (new_learner RewardOnlyLearner domain13) 8191 1 4 0.5)
    as (w' & Hlook & _ & Hup & _).
  - lia.
  - reflexivity.
  - unfold in_unit. simpl. split; lra.
  - unfold in_unit. split; lra.
  - exists w'. split; [exact Hlook|]. apply Hup. reflexivity.
Defined.

(** X15. In a domain of thirteen parameters, after
    [PunishOnlyLearner.punish], with learning rate and weight in [0,1], the
    weight of index [i < 13] has moved toward the opposite of the hypothesis
    bit at position [12 - i]: it lies between 0 and the old weight when the
    bit is 1, between the old weight and 1 when the bit is 0. *)
Theorem punish_only_moves_away_from_bit (self : Learner) (h s : Z) (i : nat)
    (w : Q) :
  num_params (domain self) = 13 →
  i < 13 →
  weights self !! i = Some w →
  in_unit (learning_rate self) →
  in_unit w →
  let bit := get_param_value (12 - Z.of_nat i) h in
  ∃ w',
    (PunishOnlyLearner_punish self h s).1 !! i = Some w' ∧
    is_bit bit ∧
    (bit = 1%Z → (0 <= w')%Q ∧ (w' <= w)%Q) ∧
    (bit = 0%Z → (w <= w')%Q ∧ (w' <= 1)%Q).
Proof.
  intros Hp Hi Hw Hrate Hunit bit.
  assert (Hbit : is_bit bit) by (apply get_param_value_is_bit; lia).
  unfold PunishOnlyLearner_punish. rewrite Hp.
  rewrite RewardOnlyLearner_reward_perform.
  destruct (for_index _ _ _) as [ws' e] eqn:Hloop.
  apply for_index_perform in Hloop as (_ & _ & Hlook).
  rewrite first_failure_reward_only in Hlook by lia.
  pose proof (lookup_lt_Some _ _ _ Hw) as Hlt.
  eexists. cbn [fst]. split.
  { rewrite Hlook, Hw. unfold outcome, reward_only_action.
    repeat (case_bool_decide; simpl); try done; lia. }
  split; [done|].
  replace (12 - Z.of_nat i)%Z with (Z.of_nat (12 - i)) by lia.
  rewrite (complement_bit 13) by lia.
  replace (Z.of_nat (12 - i)) with (12 - Z.of_nat i)%Z by lia. fold bit.
  clearbody bit.
  destruct (nudge_direction (learning_rate self) (1 - bit) w Hrate Hunit)
    as [Hup Hdown].
  split; intros ->; [apply Hdown|apply Hup]; reflexivity.
Qed.

Lemma punish_only_moves_away_from_bit_witness :
  ∃ w',
    (PunishOnlyLearner_punish (new_learner PunishOnlyLearner domain13)
       8191 1).1 !! 4 = Some w' ∧
    (0 <= w')%Q ∧ (w' <= 0.5)%Q.
Proof.
  destruct (punish_only_moves_away_from_bit
              (new_learner PunishOnlyLearner domain13) 8191 1 4 0.5)
    as (w' & Hlook & _ & Hdown & _).
  - reflexivity.
  - lia.
  - reflexivity.
  - unfold in_unit. simpl. split; lra.
  - unfold in_unit. split; lra.
  - exists w'. split; [exact Hlook|]. apply Hdown. reflexivity.
Defined.

Lemma for_index_ext_in (f g : nat → list Q → list Q * option exn)
    (indices : list nat) :
  (∀ index ws, index ∈ indices → f index ws = g index ws) →
  ∀ ws, for_index indices f ws = for_index indices g ws.
Proof.
  induction indices as [|index rest IH]; intros Hfg ws; simpl; [reflexivity|].
  rewrite Hfg by apply list_elem_of_here.
  destruct (g index ws) as [ws' [e|]]; [reflexivity|].
  apply IH. intros j ws0 Hj. apply Hfg. by apply list_elem_of_further.
Qed.

Lemma get_None_length (t : string) :
  ∀ i, String.get i t = None ↔ String.length t ≤ i.
Proof.
  induction t as [|c t IH]; intros i; simpl.
  - split; [lia|done].
  - destruct i as [|i]; simpl.
    + split; [done|lia].
    + rewrite IH. lia.
Qed.

Lemma first_failure_Some (act : nat → action) (len : nat) (indices : list nat)
    (j : nat) :
  j ∈ indices → fails act len j = true →
  first_failure act len indices ≠ None.
Proof.
  induction indices as [|k rest IH]; intros Hj Hfail; simpl.
  - by apply elem_of_nil in Hj.
  - destruct (fails act len k) eqn:Hk; [done|].
    apply IH; [|done]. apply elem_of_cons in Hj as [->|Hj]; [congruence|done].
Qed.

(** X16. When the annotation of the sentence marks the first thirteen
    parameters irrelevant, the relevance-filtered and the skeptical reward
    return normally and leave the weights as they are, whatever the number of
    weights. *)
Theorem all_irrelevant_changes_nothing (self : Learner) (h s : Z) :
  (∀ i, i < 13 → annotation (domain self) s i = Some "~"%char) →
  RewardOnlyRelevantLearner_reward self h s = (weights self, None) ∧
  SkepticalRewardOnlyLearner_reward self h s = (weights self, None).
Proof.
  intros Hnote. unfold annotation in Hnote.
  destruct (sentence_irr (domain self) !! s) as [t|] eqn:Hs.
  2:{ specialize (Hnote 0). simpl in Hnote. discriminate Hnote. lia. }
  simpl in Hnote.
  assert (Hloop : ∀ act,
            (∀ i, i < 13 → act i = Skip) →
            for_index (seq 0 13) (perform act h) (weights self) =
            (weights self, None)).
  { intros act Hact.
    destruct (for_index _ _ _) as [ws' e] eqn:Hloop.
    apply for_index_perform in Hloop as (Hlen & He & Hlook).
    assert (Hnone : first_failure act (length (weights self)) (seq 0 13)
                    = None).
    { apply first_failure_None. intros j Hj. apply elem_of_seq in Hj.
      unfold fails. rewrite Hact by lia. done. }
    f_equal; [|by apply He].
    apply list_eq. intros i. rewrite Hlook, Hnone. unfold outcome.
    case_bool_decide; simpl; [|done].
    rewrite Hact by lia. by destruct (weights self !! i). }
  split.
  - rewrite (RewardOnlyRelevantLearner_reward_perform _ _ _ _ Hs).
    apply Hloop. intros i Hi. unfold relevant_action. by rewrite Hnote.
  - rewrite (SkepticalRewardOnlyLearner_reward_perform _ _ _ _ Hs).
    apply Hloop. intros i Hi. unfold skeptical_action. by rewrite Hnote.
Qed.

Lemma all_irrelevant_changes_nothing_witness :
  let self := new_learner RewardOnlyRelevantLearner domain13_irrelevant in
  RewardOnlyRelevantLearner_reward self 5 1 = (weights self, None) ∧
  SkepticalRewardOnlyLearner_reward self 5 1 = (weights self, None).
Proof.
  apply (all_irrelevant_changes_nothing
           (new_learner RewardOnlyRelevantLearner domain13_irrelevant) 5 1).
  intros i Hi. do 13 (destruct i as [|i]; [reflexivity|]). lia.
Defined.

(** X17. When the annotation of the sentence marks none of the first thirteen
    parameters ambiguous (or the sentence has no annotation),
    [SkepticalRewardOnlyLearner.reward] does exactly what
    [RewardOnlyRelevantLearner.reward] does. *)
Theorem skeptical_without_ambiguity (self : Learner) (h s : Z) :
  (∀ i, i < 13 → annotation (domain self) s i ≠ Some "*"%char) →
  SkepticalRewardOnlyLearner_reward self h s =
  RewardOnlyRelevantLearner_reward self h s.
Proof.
  intros Hnote. unfold annotation in Hnote.
  unfold SkepticalRewardOnlyLearner_reward, RewardOnlyRelevantLearner_reward.
  destruct (sentence_irr (domain self) !! s) as [t|] eqn:Hs; [|reflexivity].
  simpl in Hnote. apply for_index_ext_in. intros index ws Hin.
  apply elem_of_seq in Hin. specialize (Hnote index).
  destruct (get index t) as [c|]; [|reflexivity].
  destruct (Ascii.eqb c "~"); [reflexivity|].
  destruct (Ascii.eqb_spec c "*") as [->|Hne]; [|reflexivity].
  exfalso. apply Hnote; [lia|reflexivity].
Qed.

Lemma skeptical_without_ambiguity_witness :
  SkepticalRewardOnlyLearner_reward
    (new_learner SkepticalRewardOnlyLearner domain14) 5 1 =
  RewardOnlyRelevantLearner_reward
    (new_learner SkepticalRewardOnlyLearner domain14) 5 1.
Proof.
  apply (skeptical_without_ambiguity
           (new_learner SkepticalRewardOnlyLearner domain14) 5 1).
  intros i Hi. do 13 (destruct i as [|i]; [discriminate|]). lia.
Defined.

(** X18. When the annotation of the sentence has at least thirteen characters,
    none of the first thirteen being ['~'], [RewardOnlyRelevantLearner.reward]
    does exactly what [RewardOnlyLearner.reward] does. *)
Theorem relevant_without_irrelevance (self : Learner) (h s : Z) :
  (∀ i, i < 13 →
        ∃ c, annotation (domain self) s i = Some c ∧ c ≠ "~"%char) →
  RewardOnlyRelevantLearner_reward self h s =
  RewardOnlyLearner_reward self h s.
Proof.
  intros Hnote. unfold annotation in Hnote.
  unfold RewardOnlyRelevantLearner_reward, RewardOnlyLearner_reward.
  destruct (sentence_irr (domain self) !! s) as [t|] eqn:Hs.
  2:{ destruct (Hnote 0) as (c & Hc & _); [lia|]. discriminate Hc. }
  simpl in Hnote. apply for_index_ext_in. intros index ws Hin.
  apply elem_of_seq in Hin.
  destruct (Hnote index) as (c & -> & Hc); [lia|].
  destruct (Ascii.eqb_spec c "~") as [->|_]; [done|reflexivity].
Qed.

Lemma relevant_without_irrelevance_witness :
  RewardOnlyRelevantLearner_reward
    (new_learner RewardOnlyRelevantLearner domain14) 5 1 =
  RewardOnlyLearner_reward
    (new_learner RewardOnlyRelevantLearner domain14) 5 1.
Proof.
  apply (relevant_without_irrelevance
           (new_learner RewardOnlyRelevantLearner domain14) 5 1).
  intros i Hi.
  do 13 (destruct i as [|i];
         [exists "0"%char; split; [reflexivity|discriminate]|]).
  lia.
Defined.

(** X19. A sentence whose annotation has fewer than thirteen characters makes
    the relevance-filtered and the skeptical reward raise [IndexError]. *)
Theorem short_annotation_raises (self : Learner) (h s : Z) (t : string) :
  sentence_irr (domain self) !! s = Some t →
  String.length t < 13 →
  (RewardOnlyRelevantLearner_reward self h s).2 = Some IndexError ∧
  (SkepticalRewardOnlyLearner_reward self h s).2 = Some IndexError.
Proof.
  intros Hs Hlen.
  assert (Hloop : ∀ act,
            act (String.length t) = Fail →
            (for_index (seq 0 13) (perform act h) (weights self)).2 =
            Some IndexError).
  { intros act Hact.
    pose proof (for_index_perform_exn act h (seq 0 13) (weights self)) as Hexn.
    destruct (for_index _ _ _) as [ws' e] eqn:Hloop.
    apply for_index_perform in Hloop as (_ & He & _). cbn [snd] in *.
    destruct e as [e|]; [by rewrite (Hexn e)|].
    destruct He as [He _]. specialize (He eq_refl).
    exfalso.
    eapply (first_failure_Some act _ (seq 0 13) (String.length t));
      [| |exact He].
    - apply elem_of_seq. lia.
    - unfold fails. by rewrite Hact. }
  assert (Hget : get (String.length t) t = None) by by apply get_None_length.
  split.
  - rewrite (RewardOnlyRelevantLearner_reward_perform _ _ _ _ Hs).
    apply Hloop. unfold relevant_action. by rewrite Hget.
  - rewrite (SkepticalRewardOnlyLearner_reward_perform _ _ _ _ Hs).
    apply Hloop. unfold skeptical_action. by rewrite Hget.
Qed.

Lemma short_annotation_raises_witness :
  (RewardOnlyRelevantLearner_reward
     (new_learner RewardOnlyRelevantLearner domain3) 5 1).2
    = Some IndexError ∧
  (SkepticalRewardOnlyLearner_reward
     (new_learner RewardOnlyRelevantLearner domain3) 5 1).2
    = Some IndexError.
Proof.
  apply (short_annotation_raises
           (new_learner RewardOnlyRelevantLearner domain3) 5 1 "000").
  - reflexivity.
  - simpl. lia.
Defined.

(** ** The learning step and the invariants of a run *)

Lemma put_same_weights (st : State) :
  {| learner := set_weights (learner st) (weights (learner st));
     world := world st |} = st.
Proof. by destruct st as [[] ?]. Qed.

(** X20. When the sampled grammar is legal but has no entry in
    [domain.language], [consume] raises [KeyError] and the learner is
    unchanged. *)
Theorem consume_unknown_grammar (fuel : nat) (sentence g : Z)
    (st st1 : State) :
  choose_grammar fuel st = (Ok g, st1) →
  language (domain (learner st)) !! g = None →
  consume fuel sentence st = (Raise KeyError, st1) ∧
  learner st1 = learner st.
Proof.
  intros Hchoose Hlang.
  pose proof (choose_grammar_frame fuel st) as [Hself _].
  rewrite Hchoose in Hself. simpl in Hself. split; [|done].
  unfold consume, mbind, M_bind, bind. rewrite Hchoose.
  unfold parses, mbind, M_bind, bind, get_self. rewrite Hself, Hlang.
  reflexivity.
Qed.

Lemma consume_unknown_grammar_witness :
  let st := sample_state RewardOnlyLearner domain13 first_low_draws in
  consume 1 1 st = (Raise KeyError, (choose_grammar 1 st).2) ∧
  learner (choose_grammar 1 st).2 = learner st.
Proof.
  apply (consume_unknown_grammar 1 1 4096
           (sample_state RewardOnlyLearner domain13 first_low_draws)).
  - apply run_result. reflexivity.
  - reflexivity.
Defined.

(** X21. [consume] returns normally and leaves the learner unchanged when the
    sampled grammar does not parse the sentence, for the three reward-only
    classes, and when it does parse it, for [PunishOnlyLearner]. *)
Theorem consume_without_evidence (fuel : nat) (sentence g : Z)
    (sentences : gset Z) (st st1 : State) :
  choose_grammar fuel st = (Ok g, st1) →
  language (domain (learner st)) !! g = Some sentences →
  (reward_only (cls (learner st)) ∧ sentence ∉ sentences) ∨
  (cls (learner st) = PunishOnlyLearner ∧ sentence ∈ sentences) →
  consume fuel sentence st = (Ok tt, st1) ∧
  learner st1 = learner st.
Proof.
  intros Hchoose Hlang Hcase.
  pose proof (choose_grammar_frame fuel st) as [Hself _].
  rewrite Hchoose in Hself. simpl in Hself. split; [|done].
  unfold consume, mbind, M_bind, bind. rewrite Hchoose.
  unfold parses, mbind, M_bind, bind, get_self. rewrite Hself, Hlang.
  unfold mret, M_ret, ret.
  destruct Hcase as [[Hcls Hout]|[Hcls Hin]].
  - rewrite bool_decide_eq_false_2 by done.
    unfold punish, mutate, mbind, M_bind, bind, get_self, put_self,
      punish_weights, mret, M_ret, ret.
    rewrite Hself.
    destruct Hcls as [->|[->| ->]]; simpl; rewrite <- Hself;
      by rewrite put_same_weights.
  - rewrite bool_decide_eq_true_2 by done.
    unfold reward, mutate, mbind, M_bind, bind, get_self, put_self,
      reward_weights, mret, M_ret, ret.
    rewrite Hself, Hcls. simpl. rewrite <- Hself.
    by rewrite put_same_weights.
Qed.

Lemma consume_without_evidence_witness :
  let st := sample_state RewardOnlyLearner domain13 high_draws in
  consume 1 2 st = (Ok tt, (choose_grammar 1 st).2) ∧
  learner (choose_grammar 1 st).2 = learner st.
Proof.
  apply (consume_without_evidence 1 2 0 {[ 1%Z ]}
           (sample_state RewardOnlyLearner domain13 high_draws)).
  - apply run_result. reflexivity.
  - reflexivity.
  - left. split; [by left|]. set_solver.
Defined.

Lemma same_config_trans (a b c : Learner) :
  same_config a b → same_config b c → same_config a c.
Proof. intros (?&?&?) (?&?&?). repeat split; congruence. Qed.

Lemma same_config_set_weights (l l' : Learner) :
  same_config l l' → set_weights l (weights l') = l'.
Proof. destruct l, l'. intros (?&?&?). simpl in *. by subst. Qed.

Lemma consume_keeps (fuel : nat) (sentence : Z) (st : State)
    (l : Learner) (P : list Q → Prop) :
  kept_by_updates l P →
  same_config l (learner st) →
  P (weights (learner st)) →
  P (weights (learner (consume fuel sentence st).2)).
Proof.
  intros Hkept Hcfg HP. unfold consume, mbind, M_bind, bind.
  destruct (choose_grammar_frame fuel st) as [Hself _].
  destruct (choose_grammar fuel st) as [[g|e|] st1]; simpl in *;
    try (by rewrite Hself).
  pose proof (parses_frame g sentence st1) as Hp.
  destruct (parses g sentence st1) as [[b|e|] st2]; simpl in *; subst st2;
    try (by rewrite Hself).
  destruct (Hkept (weights (learner st)) g sentence HP) as [Hr Hpu].
  rewrite (same_config_set_weights _ _ Hcfg) in Hr, Hpu.
  destruct b; unfold reward, punish;
    match goal with |- context [mutate ?m st1] =>
      destruct (mutate_frame m st1) as (_ & -> & _) end;
    by rewrite Hself.
Qed.

Lemma learn_loop_keeps (fuel : nat) (threshold : Q) (lang : list Z) (cap : Z)
    (l : Learner) (P : list Q → Prop) (n : nat) :
  kept_by_updates l P →
  ∀ counter st,
    same_config l (learner st) →
    P (weights (learner st)) →
    same_config l (learner (learn_loop fuel n threshold lang cap counter st).2) ∧
    P (weights (learner (learn_loop fuel n threshold lang cap counter st).2)).
Proof.
  intros Hkept. induction n as [|n IH]; intros counter st Hcfg HP; simpl.
  - done.
  - unfold mbind, M_bind, bind, get_self, mret, M_ret, ret.
    destruct (converged (learner st) threshold); [done|].
    unfold choose_sentence, choice.
    destruct (lang !! _) as [sentence|]; [|done].
    set (st1 := {| learner := learner st; world := _ |}).
    pose proof (consume_frame fuel sentence st1) as [Hc _].
    pose proof (consume_keeps fuel sentence st1 l P Hkept Hcfg HP) as Hk.
    destruct (consume fuel sentence st1) as [[[]|e|] st2]; simpl in *;
      try (split; [by eapply same_config_trans|done]).
    destruct (counter >=? cap)%Z; simpl.
    + split; [by eapply same_config_trans|done].
    + apply IH; [by eapply same_config_trans|done].
Qed.

Lemma update_weight_length (rate : Q) (h : Z) (index : nat) (ws : list Q) :
  length (update_weight rate h index ws).1 = length ws.
Proof.
  unfold update_weight. destruct (ws !! index); simpl; [|done].
  apply length_insert.
Qed.

Lemma reward_weights_length (self : Learner) (h s : Z) :
  length (reward_weights self h s).1 = length (weights self).
Proof.
  unfold reward_weights.
  destruct (cls self); simpl; try done.
  - unfold RewardOnlyLearner_reward.
    apply (for_index_invariant (fun ws => length ws = length (weights self)));
      [|done].
    intros index ws <-. apply update_weight_length.
  - unfold RewardOnlyRelevantLearner_reward.
    destruct (sentence_irr (domain self) !! s) as [t|]; [|done].
    apply (for_index_invariant (fun ws => length ws = length (weights self)));
      [|done].
    intros index ws <-. destruct (get index t); [|done].
    destruct (Ascii.eqb _ _); [done|]. apply update_weight_length.
  - unfold SkepticalRewardOnlyLearner_reward.
    destruct (sentence_irr (domain self) !! s) as [t|]; [|done].
    apply (for_index_invariant (fun ws => length ws = length (weights self)));
      [|done].
    intros index ws <-. destruct (get index t); [|done].
    destruct (Ascii.eqb _ "~"); [done|]. apply update_weight_length.
Qed.

Lemma punish_weights_length (self : Learner) (h s : Z) :
  length (punish_weights self h s).1 = length (weights self).
Proof.
  unfold punish_weights.
  destruct (cls self); simpl; try done.
  unfold PunishOnlyLearner_punish, RewardOnlyLearner_reward.
  apply (for_index_invariant (fun ws => length ws = length (weights self)));
    [|done].
  intros index ws <-. apply update_weight_length.
Qed.

Lemma kept_length_and_unit (l : Learner) (p : nat) :
  in_unit (learning_rate l) →
  kept_by_updates l (fun ws => length ws = p ∧ Forall in_unit ws).
Proof.
  intros Hrate ws h s [Hlen Hunit]. split; split.
  - by rewrite reward_weights_length.
  - by apply reward_weights_in_unit.
  - by rewrite punish_weights_length.
  - by apply punish_weights_in_unit.
Qed.

Lemma same_config_refl (l : Learner) : same_config l l.
Proof. done. Qed.

Lemma kept_length (l : Learner) (p : nat) :
  kept_by_updates l (fun ws => length ws = p).
Proof.
  intros ws h s Hlen. split.
  - by rewrite reward_weights_length.
  - by rewrite punish_weights_length.
Qed.

(** X22. However [learn_language] ends (return, exception, or a loop that
    does not end), it leaves the class, the domain and the learning rate of
    the learner as they were and does not resize the weight list; for a
    learning rate and weights in [0,1], it keeps every weight in [0,1]. *)
Theorem learn_language_keeps_invariants (fuel : nat) (lang : list Z)
    (cap : Z) (st : State) :
  let st' := (learn_language fuel lang cap st).2 in
  same_config (learner st) (learner st') ∧
  length (weights (learner st')) = length (weights (learner st)) ∧
  (in_unit (learning_rate (learner st)) →
   Forall in_unit (weights (learner st)) →
   Forall in_unit (weights (learner st'))).
Proof.
  intros st'. subst st'. unfold learn_language.
  pose proof (learn_loop_keeps fuel 0.02 lang cap (learner st) _ fuel
                (kept_length (learner st) (length (weights (learner st))))
                0%Z st (same_config_refl _) eq_refl) as (Hcfg & Hlen).
  split; [exact Hcfg|]. split; [exact Hlen|].
  intros Hrate Hunit.
  pose proof (learn_loop_keeps fuel 0.02 lang cap (learner st) _ fuel
                (kept_length_and_unit (learner st)
                   (length (weights (learner st))) Hrate)
                0%Z st (same_config_refl _) (conj eq_refl Hunit))
    as (_ & _ & Hu).
  exact Hu.
Qed.

Lemma learn_language_keeps_invariants_witness :
  let st := sample_state SkepticalRewardOnlyLearner domain13 mixed_draws in
  let st' := (learn_language 5 [1%Z] 3 st).2 in
  length (weights (learner st')) = 13 ∧
  Forall in_unit (weights (learner st')).
Proof.
  destruct (learn_language_keeps_invariants 5 [1%Z] 3
              (sample_state SkepticalRewardOnlyLearner domain13 mixed_draws))
    as (_ & Hlen & Hunit).
  split; [exact Hlen|]. apply Hunit.
  - unfold in_unit. simpl. split; lra.
  - simpl. repeat (constructor; [unfold in_unit; split; lra|]). constructor.
Defined.

(** ** The harness, once more *)

(** X24. With a negative cap, a run of [learn_language] that returns gives
    0: at once and with nothing changed if the learner was already converged,
    after exactly one sentence otherwise. *)
Theorem learn_language_negative_cap (fuel : nat) (lang : list Z) (cap : Z)
    (st st' : State) (k : Z) :
  (cap < 0)%Z →
  learn_language fuel lang cap st = (Ok k, st') →
  k = 0%Z ∧
  (converged (learner st) 0.02 = true →
   st' = st ∧ sentences_drawn st st' = 0%Z) ∧
  (converged (learner st) 0.02 = false → sentences_drawn st st' = 1%Z).
Proof.
  intros Hcap Hrun. unfold learn_language in Hrun.
  destruct fuel as [|fuel]; [discriminate|].
  destruct (converged (learner st) 0.02) eqn:Hconv.
  - rewrite learn_loop_converged in Hrun by done. injection Hrun as <- <-.
    split; [done|]. split; [|done]. intros _. split; [done|].
    unfold sentences_drawn. lia.
  - apply learn_loop_Ok in Hrun
      as (_ & Hfirst & [(_ & Hdrawn & Hk)|(Hk & Hdrawn)]).
    + specialize (Hfirst Hconv). lia.
    + split; [lia|]. split; [done|]. intros _. lia.
Qed.

Lemma learn_language_negative_cap_witness :
  let st := sample_state RewardOnlyLearner domain13 high_draws in
  let st' := (learn_language 2 [1%Z] (-3) st).2 in
  converged (learner st) 0.02 = false ∧ sentences_drawn st st' = 1%Z.
Proof.
  split; [reflexivity|].
  destruct (learn_language_negative_cap 2 [1%Z] (-3)
              (sample_state RewardOnlyLearner domain13 high_draws)
              (learn_language 2 [1%Z] (-3)
                 (sample_state RewardOnlyLearner domain13 high_draws)).2 0)
    as (_ & _ & Hone).
  - lia.
  - apply run_result. vm_compute. reflexivity.
  - apply Hone. reflexivity.
Defined.

(** X25. With an empty target language and a learner that is not converged,
    [learn_language] raises [IndexError] (from [random.choice]) and changes
    nothing. *)
Theorem learn_language_empty_language (fuel : nat) (cap : Z) (st : State) :
  converged (learner st) 0.02 = false →
  learn_language (S fuel) [] cap st = (Raise IndexError, st).
Proof.
  intros Hconv. unfold learn_language. simpl.
  unfold mbind, M_bind, bind, get_self. rewrite Hconv.
  unfold choose_sentence, choice. by rewrite lookup_nil.
Qed.

Lemma learn_language_empty_language_witness :
  let st := sample_state RewardOnlyLearner domain13 high_draws in
  learn_language 1 [] 5 st = (Raise IndexError, st).
Proof.
  apply (learn_language_empty_language 0 5
           (sample_state RewardOnlyLearner domain13 high_draws)).
  reflexivity.
Defined.

Lemma run_trials_keys (fuel : nat) (c : LearnerClass) (d : Domain) (g : Z)
    (lang : list Z) (cap : Z) (trial_nums : list nat) :
  ∀ st,
    let run := run_trials fuel c d g lang cap trial_nums st in
    row_key <$> run.1.1 `prefix_of` (fun t => (g, t)) <$> trial_nums ∧
    (run.1.2 = Ok tt → row_key <$> run.1.1 = (fun t => (g, t)) <$> trial_nums).
Proof.
  induction trial_nums as [|t rest IH]; intros st; cbn [run_trials].
  - done.
  - destruct (run_trial fuel c d g lang cap t st) as [[row|e|] st1] eqn:Htrial;
      cbn [fst snd stop]; try (split; [apply prefix_nil|done]).
    apply run_trial_Ok in Htrial as (Hg & Ht & _).
    specialize (IH st1). cbn zeta in IH.
    destruct (run_trials fuel c d g lang cap rest st1) as [[rows r] st2].
    cbn [fst snd] in *. destruct IH as [Hpre Heq]. rewrite !fmap_cons.
    unfold row_key at 1 3. rewrite Hg, Ht. split.
    + by apply prefix_cons.
    + intros Hr. by rewrite Heq.
Qed.

Lemma run_vl_on_languages_keys (fuel : nat) (c : LearnerClass)
    (grammar_ids : list Z) (num_learners : nat) (num_sentences : Z)
    (d : Domain) (st : State) :
  let run :=
    run_vl_on_languages fuel c grammar_ids num_learners num_sentences d st in
  row_key <$> run.1.1 `prefix_of` trial_plan grammar_ids num_learners ∧
  (run.1.2 = Ok tt →
   row_key <$> run.1.1 = trial_plan grammar_ids num_learners).
Proof.
  revert st. induction grammar_ids as [|g rest IH]; intros st;
    cbn [run_vl_on_languages].
  - done.
  - unfold trial_plan. rewrite bind_cons. fold (trial_plan rest num_learners).
    destruct (language d !! g) as [sentences|]; cbn [fst snd stop];
      [|split; [apply prefix_nil|done]].
    pose proof (run_trials_keys fuel c d g (elements sentences) num_sentences
                  (seq 0 num_learners) st) as Htrials.
    destruct (run_trials fuel c d g (elements sentences) num_sentences
                (seq 0 num_learners) st) as [[rows r] st1].
    cbn [fst snd] in Htrials. destruct Htrials as [Hpre Heq].
    destruct r as [[]|e|]; cbn [fst snd].
    + specialize (IH st1). cbn zeta in IH.
      destruct (run_vl_on_languages fuel c rest num_learners num_sentences d
                  st1) as [[rows' r'] st2].
      cbn [fst snd] in *. destruct IH as [Hpre' Heq'].
      rewrite fmap_app, (Heq eq_refl). split.
      * by apply prefix_app.
      * intros Hr. by rewrite Heq'.
    + split; [|done]. by apply prefix_app_r.
    + split; [|done]. by apply prefix_app_r.
Qed.

(** X26. The rows yielded by [run_vl_on_languages] come in the order of the
    two loops: their (grammar, trial number) pairs are a prefix of the list of
    all pairs, and the whole list, of [len(grammar_ids) * num_learners] rows,
    when the generator ends normally. *)
Theorem run_vl_on_languages_rows_in_order (fuel : nat) (c : LearnerClass)
    (grammar_ids : list Z) (num_learners : nat) (num_sentences : Z)
    (d : Domain) (st : State) :
  let run :=
    run_vl_on_languages fuel c grammar_ids num_learners num_sentences d st in
  row_key <$> run.1.1 `prefix_of` trial_plan grammar_ids num_learners ∧
  (run.1.2 = Ok tt →
   row_key <$> run.1.1 = trial_plan grammar_ids num_learners ∧
   length run.1.1 = length grammar_ids * num_learners).
Proof.
  intros run. subst run.
  destruct (run_vl_on_languages_keys fuel c grammar_ids num_learners
              num_sentences d st) as [Hpre Heq].
  cbn zeta in *.
  split; [exact Hpre|]. intros Hok. specialize (Heq Hok).
  split; [exact Heq|].
  rewrite <- (length_fmap row_key), Heq.
  unfold trial_plan. clear.
  induction grammar_ids as [|g rest IH]; [reflexivity|].
  rewrite bind_cons, length_app, IH, length_fmap, length_seq. simpl. lia.
Qed.

Lemma run_vl_on_languages_rows_in_order_witness :
  let run :=
    run_vl_on_languages 2 RewardOnlyLearner [0; 8191]%Z 2 0 domain13
      (sample_state VariationalLearner domain13 high_draws) in
  row_key <$> run.1.1 =
    [(0%Z, 0); (0%Z, 1); (8191%Z, 0); (8191%Z, 1)] ∧
  length run.1.1 = 2 * 2.
Proof.
  intros run.
  destruct (run_vl_on_languages_rows_in_order 2 RewardOnlyLearner
              [0; 8191]%Z 2 0 domain13
              (sample_state VariationalLearner domain13 high_draws))
    as [_ Hok].
  apply Hok. vm_compute. reflexivity.
Defined.

(** X27. When one of the grammar ids has no entry in [domain.language],
    [run_vl_on_languages] does not end normally. *)
Theorem run_vl_on_languages_unknown_grammar (fuel : nat) (c : LearnerClass)
    (grammar_ids : list Z) (num_learners : nat) (num_sentences : Z)
    (d : Domain) (st : State) (g : Z) :
  g ∈ grammar_ids →
  language d !! g = None →
  (run_vl_on_languages fuel c grammar_ids num_learners num_sentences d
     st).1.2 ≠ Ok tt.
Proof.
  intros Hin Hnone. revert st.
  induction grammar_ids as [|g' rest IH]; intros st.
  - by apply elem_of_nil in Hin.
  - simpl. destruct (decide (g' = g)) as [->|Hne].
    + by rewrite Hnone.
    + apply elem_of_cons in Hin as [->|Hin]; [done|].
      destruct (language d !! g') as [sentences|]; [|done].
      destruct (run_trials _ _ _ _ _ _ _ _) as [[rows r] st1].
      destruct r as [[]|e|]; simpl; try done.
      specialize (IH Hin st1).
      by destruct (run_vl_on_languages _ _ _ _ _ _ _) as [[rows' r'] st2].
Qed.

Lemma run_vl_on_languages_unknown_grammar_witness :
  (run_vl_on_languages 2 RewardOnlyLearner [0; 5]%Z 1 0 domain13
     (sample_state VariationalLearner domain13 high_draws)).1.2 ≠ Ok tt.
Proof.
  apply (run_vl_on_languages_unknown_grammar 2 RewardOnlyLearner [0; 5]%Z 1 0
           domain13 (sample_state VariationalLearner domain13 high_draws) 5).
  - set_solver.
  - reflexivity.
Defined.

Lemma run_trial_row (fuel : nat) (c : LearnerClass) (d : Domain) (g : Z)
    (lang : list Z) (cap : Z) (t : nat) (st st' : State) (row : Result) :
  run_trial fuel c d g lang cap t st = (Ok row, st') →
  length (r_weights row) = num_params d ∧
  Forall in_unit (r_weights row) ∧
  (0 <= r_sentences_consumed row <= Z.max 0 cap)%Z.
Proof.
  unfold run_trial. intros H.
  apply bind_Ok in H as ([] & st0 & Hput & H).
  apply bind_Ok in H as (start & st0' & Hstart & H).
  apply bind_Ok in H as (k & st1 & Hlearn & H).
  apply bind_Ok in H as (end_ & st1' & Hend & H).
  apply bind_Ok in H as (hyp & st2 & Hchoose & H).
  unfold_monad. injection H as <- <-. simpl.
  injection Hput as <-. injection Hstart as <- <-. injection Hend as <- <-.
  unfold learn_language in Hlearn.
  match type of Hlearn with learn_loop _ _ _ _ _ _ ?s = _ =>
    pose proof (learn_loop_keeps fuel 0.02 lang cap (learner s) _ fuel
                  (kept_length_and_unit (learner s) (num_params d)
                     ltac:(unfold in_unit; simpl; split; lra))
                  0%Z s (same_config_refl _)) as Hinv end.
  rewrite Hlearn in Hinv. simpl in Hinv.
  destruct Hinv as (_ & Hlen & Hunit).
  { split; [apply length_replicate|].
    apply Forall_replicate. unfold in_unit. split; lra. }
  match type of Hchoose with choose_grammar _ ?s = _ =>
    pose proof (choose_grammar_frame fuel s) as [Hself _] end.
  rewrite Hchoose in Hself. simpl in Hself. rewrite Hself.
  split; [done|]. split; [done|].
  apply learn_loop_Ok in Hlearn as (_ & _ & [(_ & _ & Hk)|(-> & _)]); lia.
Qed.

(** X28. Every row yielded by [run_vl_on_languages] holds [num_params]
    weights, each in [0,1], a count of sentences between 0 and the cap (0 for
    a negative cap), a grammar of [grammar_ids] and a trial number below
    [num_learners]. *)
Theorem yielded_rows_are_well_formed (fuel : nat) (c : LearnerClass)
    (grammar_ids : list Z) (num_learners : nat) (num_sentences : Z)
    (d : Domain) (st : State) :
  Forall
    (fun row =>
       length (r_weights row) = num_params d ∧
       Forall in_unit (r_weights row) ∧
       (0 <= r_sentences_consumed row <= Z.max 0 num_sentences)%Z ∧
       r_grammar row ∈ grammar_ids ∧
       r_trial_num row < num_learners)
    (run_vl_on_languages fuel c grammar_ids num_learners num_sentences d
       st).1.1.
Proof.
  apply Forall_forall. intros row Hrow.
  pose proof (run_vl_on_languages_Forall
                (fun row => length (r_weights row) = num_params d ∧
                            Forall in_unit (r_weights row) ∧
                            (0 <= r_sentences_consumed row
                             <= Z.max 0 num_sentences)%Z)
                fuel c num_learners num_sentences d
                (fun g lang t st0 row st' H =>
                   run_trial_row fuel c d g lang num_sentences t st0 st'
                     row H) grammar_ids st) as Hall.
  rewrite Forall_forall in Hall.
  destruct (Hall row Hrow) as (H1 & H2 & H3).
  split; [done|]. split; [done|]. split; [done|].
  destruct (run_vl_on_languages_keys fuel c grammar_ids num_learners
              num_sentences d st) as [[rest Hpre] _].
  assert (Hkey : row_key row ∈ trial_plan grammar_ids num_learners).
  { rewrite Hpre. apply elem_of_app. left.
    apply list_elem_of_fmap. by exists row. }
  unfold trial_plan in Hkey. apply list_elem_of_bind in Hkey as (g & Hkey & Hg).
  apply list_elem_of_fmap in Hkey as (t & Hkey & Ht).
  apply elem_of_seq in Ht. unfold row_key in Hkey. injection Hkey as -> ->.
  split; [done|lia].
Qed.
